(** * Glassdoor review scraper: extraction, persistence and pagination

    A shallow embedding of [nolan-enzo-will-glassdoor_scraper.js]:
    the card parser [parseReviewCard] with its helper [getSection], the
    candidate selection run inside [page.$$eval], the store writer
    [saveData] and the per-company page loop of [scrapeGlassdoor].

    JavaScript strings are sequences of UTF-16 code units and are modelled
    as lists of code units.  The platform functions the script calls
    ([indexOf], [substring], [trim], [split], the regular expressions,
    [JSON.stringify], [JSON.parse], the DOM queries) are modelled by
    executable definitions that follow ECMAScript and the DOM standard on
    the fragment the script uses. *)

From Stdlib Require Import String Ascii.
From Stdlib Require Import List Bool Arith ZArith NArith QArith Lia.
Import ListNotations.
Close Scope Q_scope.

Set Implicit Arguments.

(** ** JavaScript strings *)

Module JsString.

(** A string value: its UTF-16 code units. *)
Definition jsstring := list N.

(** The code units of a literal. *)
Definition u (s : string) : jsstring :=
  map N_of_ascii (list_ascii_of_string s).
Arguments u s%_string.

Definition eqb (a b : jsstring) : bool :=
  if list_eq_dec N.eq_dec a b then true else false.

(** [length] of a string, as the number the script computes with. *)
Definition len (s : jsstring) : Z := Z.of_nat (length s).

(** [k] is a prefix of [s]. *)
Fixpoint starts (k s : jsstring) : bool :=
  match k, s with
  | [], _ => true
  | _ :: _, [] => false
  | a :: k', b :: s' => N.eqb a b && starts k' s'
  end.

(** First position [>= i] of [s] (whose head has index [i]) at which [k]
    occurs, [-1] when there is none. *)
Fixpoint find_from (k s : jsstring) (i : Z) : Z :=
  if starts k s then i
  else match s with
       | [] => (-1)%Z
       | _ :: s' => find_from k s' (i + 1)%Z
       end.

(** [s.indexOf(k, pos)]: the position is clamped to [0 .. s.length]. *)
Definition indexOf (s k : jsstring) (pos : Z) : Z :=
  let start := Z.min (Z.max pos 0) (len s) in
  find_from k (skipn (Z.to_nat start) s) start.

(** [s.includes(k)]. *)
Definition includes (s k : jsstring) : bool :=
  negb (indexOf s k 0 =? -1)%Z.

(** [s.substring(a, b)]: both ends clamped to [0 .. s.length], swapped
    when out of order. *)
Definition substring (s : jsstring) (a b : Z) : jsstring :=
  let a' := Z.min (Z.max a 0) (len s) in
  let b' := Z.min (Z.max b 0) (len s) in
  let lo := Z.min a' b' in
  let hi := Z.max a' b' in
  firstn (Z.to_nat (hi - lo)) (skipn (Z.to_nat lo) s).

(** ECMAScript WhiteSpace and LineTerminator code units: what [trim]
    strips and what [\s] matches. *)
Definition is_space (c : N) : bool :=
  ((9 <=? c) && (c <=? 13) || (c =? 32) || (c =? 160) || (c =? 5760)
   || (8192 <=? c) && (c <=? 8202) || (c =? 8232) || (c =? 8233)
   || (c =? 8239) || (c =? 8287) || (c =? 12288) || (c =? 65279))%N.

Fixpoint trimStart (s : jsstring) : jsstring :=
  match s with
  | c :: s' => if is_space c then trimStart s' else s
  | [] => []
  end.

Definition trimEnd (s : jsstring) : jsstring :=
  rev (trimStart (rev s)).

(** [s.trim()]. *)
Definition trim (s : jsstring) : jsstring := trimEnd (trimStart s).

(** [s.split(sep)] for a one-unit separator: the pieces between the
    separators, at least one piece. *)
Fixpoint split (sep : N) (s : jsstring) : list jsstring :=
  match s with
  | [] => [[]]
  | c :: s' =>
      if N.eqb c sep then [] :: split sep s'
      else match split sep s' with
           | l :: ls => (c :: l) :: ls
           | [] => [[c]]
           end
  end.

(** [s.replace(k, '')] with a string pattern: the first occurrence of
    [k] is removed. *)
Definition removeFirst (s k : jsstring) : jsstring :=
  let i := indexOf s k 0 in
  if (i =? -1)%Z then s
  else firstn (Z.to_nat i) s ++ skipn (Z.to_nat i + length k) s.

(** JavaScript truthiness of a value that is a string or [null]. *)
Definition truthy (v : option jsstring) : bool :=
  match v with
  | Some (_ :: _) => true
  | _ => false
  end.

End JsString.
Import JsString.

(** ** Regular expressions

    The script's patterns are built from character classes, bounded or
    unbounded greedy repetition of a class, concatenation and the anchor
    [^] (no [m] flag: start of input).  A match attempt at a position
    yields the lengths of all matches in the backtracking order of
    ECMAScript; the first is the one [match] and [replace] use. *)

Module RegExp.

Inductive re : Type :=
| Bol : re
| Cls : (N -> bool) -> re
| Rep : (N -> bool) -> nat -> option nat -> re
| Cat : re -> re -> re.

(** Length of the longest prefix of [s] inside the class, at most [cap]. *)
Fixpoint run (p : N -> bool) (cap : nat) (s : jsstring) : nat :=
  match cap, s with
  | S cap', c :: s' => if p c then S (run p cap' s') else 0
  | _, _ => 0
  end.

(** [hi, hi-1, ..., lo]. *)
Fixpoint down_to (lo hi : nat) : list nat :=
  if hi <? lo then []
  else match hi with
       | 0 => [0]
       | S h => hi :: down_to lo h
       end.

(** Match lengths of [r] on [s], whose head has index [i] in the input,
    in priority order. *)
Fixpoint matches (r : re) (i : nat) (s : jsstring) : list nat :=
  match r with
  | Bol => if i =? 0 then [0] else []
  | Cls p => match s with
             | c :: _ => if p c then [1] else []
             | [] => []
             end
  | Rep p lo hi =>
      let cap := match hi with Some h => h | None => length s end in
      down_to lo (run p cap s)
  | Cat r1 r2 =>
      flat_map (fun n => map (Nat.add n) (matches r2 (i + n) (skipn n s)))
               (matches r1 i s)
  end.

(** Leftmost match scanning from index [i]: its index and length. *)
Fixpoint search_from (r : re) (i : nat) (s : jsstring) : option (nat * nat) :=
  match matches r i s with
  | n :: _ => Some (i, n)
  | [] => match s with
          | [] => None
          | _ :: s' => search_from r (S i) s'
          end
  end.

(** [r.exec(s)] for a pattern without the [g] flag. *)
Definition exec (r : re) (s : jsstring) : option (nat * nat) :=
  search_from r 0 s.

(** [s.match(r)[0]], [None] for [null]. *)
Definition match0 (r : re) (s : jsstring) : option jsstring :=
  match exec r s with
  | Some (i, n) => Some (firstn n (skipn i s))
  | None => None
  end.

(** [s.replace(r, '')] without the [g] flag. *)
Definition removeMatch (r : re) (s : jsstring) : jsstring :=
  match exec r s with
  | Some (i, n) => firstn i s ++ skipn (i + n) s
  | None => s
  end.

(** [s.replace(r, '')] with the [g] flag: every match is removed, the
    scan resuming after each one.  [skip] counts the units of the
    current match still to drop. *)
Fixpoint removeAll_from (r : re) (i skip : nat) (s : jsstring) : jsstring :=
  match s with
  | [] => []
  | c :: s' =>
      match skip with
      | S k => removeAll_from r (S i) k s'
      | 0 => match matches r i s with
             | S n :: _ => removeAll_from r (S i) n s'
             | _ => c :: removeAll_from r (S i) 0 s'
             end
      end
  end.

Definition removeAll (r : re) (s : jsstring) : jsstring :=
  removeAll_from r 0 0 s.

(** Character classes. *)
Definition between (a b : N) (c : N) : bool := ((a <=? c) && (c <=? b))%N.
Definition one_of (l : list N) (c : N) : bool := existsb (N.eqb c) l.
Definition either (p q : N -> bool) (c : N) : bool := p c || q c.

Definition digit : N -> bool := between 48 57.        (* \d *)
Definition upper : N -> bool := between 65 90.        (* [A-Z] *)
Definition lower : N -> bool := between 97 122.       (* [a-z] *)
Definition chr (a : ascii) (c : N) : bool := N.eqb c (N_of_ascii a).

(** The characters a pattern can consume. *)
Fixpoint alphabet (r : re) (c : N) : bool :=
  match r with
  | Bol => false
  | Cls p => p c
  | Rep p _ _ => p c
  | Cat r1 r2 => alphabet r1 c || alphabet r2 c
  end.

End RegExp.
Import RegExp.

(** ** The rendered page

    An element carries its local name, its attributes, the [innerText] the
    browser reports for it and its child elements.  A node of a document is
    identified by its position, the child indices leading to it from the
    root. *)

Module Dom.

#[local] Set Warnings "-register-all".
Inductive Element : Type :=
| Elem (tag : jsstring) (attrs : list (jsstring * jsstring))
       (text : jsstring) (kids : list Element).

Definition localName (e : Element) : jsstring :=
  match e with Elem t _ _ _ => t end.
Definition attributes (e : Element) : list (jsstring * jsstring) :=
  match e with Elem _ a _ _ => a end.
Definition innerText (e : Element) : jsstring :=
  match e with Elem _ _ x _ => x end.
Definition children (e : Element) : list Element :=
  match e with Elem _ _ _ k => k end.

(** [e.getAttribute(name)], [None] for [null]. *)
Definition getAttribute (e : Element) (name : jsstring) : option jsstring :=
  match find (fun kv => JsString.eqb (fst kv) name) (attributes e) with
  | Some kv => Some (snd kv)
  | None => None
  end.

(** An element reference is truthy, [null] is not. *)
Definition found (o : option Element) : bool :=
  match o with Some _ => true | None => false end.

Definition path := list nat.
Definition Node : Type := path * Element.

(** The element at [p] and everything below it, in document order. *)
Fixpoint nodes_at (p : path) (e : Element) : list Node :=
  match e with
  | Elem _ _ _ kids =>
      (p, e) ::
      (fix below (i : nat) (ks : list Element) : list Node :=
         match ks with
         | [] => []
         | k :: ks' => nodes_at (p ++ [i]) k ++ below (S i) ks'
         end) 0 kids
  end.

(** All elements of a document, given by its root element. *)
Definition nodes (root : Element) : list Node := nodes_at [] root.

(** The elements strictly below [e], in document order. *)
Definition descendants (e : Element) : list Element :=
  map snd (tl (nodes_at [] e)).

(** [a.contains(d)]: [d] is [a] or lies below it. *)
Fixpoint contains (a d : path) : bool :=
  match a, d with
  | [], _ => true
  | _ :: _, [] => false
  | i :: a', j :: d' => (i =? j) && contains a' d'
  end.

(** [a === d] on nodes of one document. *)
Definition same_node (a d : path) : bool :=
  if list_eq_dec Nat.eq_dec a d then true else false.

(** The selectors the script passes to [querySelector(All)]: a type
    selector, a class selector, and a type selector with a substring
    attribute test [t[a*="v"]]. *)
Inductive selector : Type :=
| ByTag (t : jsstring)
| ByClass (c : jsstring)
| TagAttrHas (t a v : jsstring).

(** ASCII whitespace separates the tokens of a [class] attribute. *)
Definition is_ascii_ws (c : N) : bool :=
  ((c =? 9) || (c =? 10) || (c =? 12) || (c =? 13) || (c =? 32))%N.

Fixpoint tokens_acc (cur : jsstring) (s : jsstring) : list jsstring :=
  match s with
  | [] => match cur with [] => [] | _ => [rev cur] end
  | c :: s' =>
      if is_ascii_ws c
      then match cur with
           | [] => tokens_acc [] s'
           | _ => rev cur :: tokens_acc [] s'
           end
      else tokens_acc (c :: cur) s'
  end.

Definition classList (e : Element) : list jsstring :=
  match getAttribute e (u "class") with
  | Some v => tokens_acc [] v
  | None => []
  end.

Definition selects (sel : selector) (e : Element) : bool :=
  match sel with
  | ByTag t => JsString.eqb (localName e) t
  | ByClass c => existsb (JsString.eqb c) (classList e)
  | TagAttrHas t a v =>
      JsString.eqb (localName e) t &&
      match getAttribute e a with
      | Some x => negb (JsString.eqb v []) && includes x v
      | None => false
      end
  end.

(** [document.querySelectorAll(sel)]. *)
Definition querySelectorAll (root : Element) (sel : selector) : list Node :=
  filter (fun n => selects sel (snd n)) (nodes root).

(** [e.querySelector(sel)]: the first matching descendant. *)
Definition querySelector (e : Element) (sel : selector) : option Element :=
  find (selects sel) (descendants e).

End Dom.
Import Dom.

(** ** The extractor: the function evaluated in the page *)

Module Extractor.

(** A review as [parseReviewCard] returns it; [None] is [null]. *)
Record Review : Type := mkReview {
  rating : option jsstring;
  date : option jsstring;
  title : option jsstring;
  job_title : option jsstring;
  pros : option jsstring;
  cons : option jsstring;
  advice : option jsstring
}.

(** [/[:\-\.]/g] *)
Definition punct_re : re := Cls (one_of (u ":-.")).

(** [/^[0-5]\.\d/] *)
Definition rating_re : re :=
  Cat Bol (Cat (Cls (between 48 53)) (Cat (Cls (chr ".")) (Cls digit))).

(** [/([A-Z][a-z]{2,9}\s\d{1,2},\s\d{4})/]; its one group spans the whole
    pattern, so [match[1]] is [match[0]]. *)
Definition date_re : re :=
  Cat (Cls upper)
   (Cat (Rep lower 2 (Some 9))
    (Cat (Cls is_space)
     (Cat (Rep digit 1 (Some 2))
      (Cat (Cls (chr ","))
       (Cat (Cls is_space) (Rep digit 4 (Some 4))))))).

(** [/^[\s\-\|]+/] *)
Definition lead_sep_re : re :=
  Cat Bol (Rep (either is_space (one_of (u "-|"))) 1 None).

Definition sel_ratingNumber : selector := ByClass (u "ratingNumber").
Definition sel_ratingSpan : selector :=
  TagAttrHas (u "span") (u "class") (u "rating").
Definition sel_reviewLink : selector :=
  TagAttrHas (u "a") (u "href") (u "/Reviews/Employee-Review").

(** The end of a section: the nearest terminator at or after
    [startIndex], the end of the text when there is none. *)
Definition nearestEnd (text : jsstring) (startIndex : Z)
           (endKeywords : list jsstring) : Z :=
  fold_left
    (fun endIndex key =>
       let idx := indexOf text key startIndex in
       if negb (idx =? -1)%Z && (idx <? endIndex)%Z then idx else endIndex)
    endKeywords (len text).

(** [getSection], with the text it closes over as a parameter. *)
Definition getSection (text startKeyword : jsstring)
           (endKeywords : list jsstring) : option jsstring :=
  if negb (includes text startKeyword) then None
  else
    let startIndex := (indexOf text startKeyword 0 + len startKeyword)%Z in
    let endIndex := nearestEnd text startIndex endKeywords in
    Some (trim (removeAll punct_re (substring text startIndex endIndex))).

(** [card.querySelector('.ratingNumber') ||
    card.querySelector('span[class*="rating"]')]. *)
Definition ratingElement (card : Element) : option Element :=
  match querySelector card sel_ratingNumber with
  | Some e => Some e
  | None => querySelector card sel_ratingSpan
  end.

(** The rating: the trimmed text of the rating element, else the
    leading pattern of the card's text. *)
Definition findRating (card : Element) (text : jsstring) : option jsstring :=
  let rating :=
    match ratingElement card with
    | Some e => Some (trim (innerText e))
    | None => None
    end in
  if negb (truthy rating)
  then match match0 rating_re text with
       | Some m => Some m
       | None => rating
       end
  else rating.

Definition findDate (text : jsstring) : option jsstring :=
  match0 date_re text.

Definition findTitle (card : Element) : option jsstring :=
  match querySelector card sel_reviewLink with
  | Some link => Some (trim (innerText link))
  | None => None
  end.

(** The employment line: what is left of the first line holding the
    date. *)
Definition findJobTitle (text : jsstring) (date : option jsstring)
  : option jsstring :=
  match date with
  | Some d =>
      if truthy date
      then match find (fun l => includes l d) (split 10 text) with
           | Some dateLine =>
               if truthy (Some dateLine)
               then Some (trim (removeMatch lead_sep_re (removeFirst dateLine d)))
               else None
           | None => None
           end
      else None
  | None => None
  end.

(** The three rejections at the head of [parseReviewCard]. *)
Definition isGarbage (card : Element) (text : jsstring) : bool :=
  (includes text (u "(in ") && includes text (u "reviews)"))
  || (len text <? 50)%Z
  || (negb (includes text (u "Star"))
      && negb (found (querySelector card sel_ratingNumber))
      && negb (found (querySelector card sel_ratingSpan))).

Definition parseReviewCard (card : Element) : option Review :=
  let text := innerText card in
  if isGarbage card text then None
  else
    let rating := findRating card text in
    let date := findDate text in
    let title := findTitle card in
    let jobTitle := findJobTitle text date in
    let pros :=
      getSection text (u "Pros") [u "Cons"; u "Advice to Management"; u "Helpful"] in
    let cons := getSection text (u "Cons") [u "Advice to Management"; u "Helpful"] in
    let advice := getSection text (u "Advice to Management") [u "Helpful"] in
    if truthy rating && (truthy pros || truthy cons || truthy title)
    then Some (mkReview rating date title jobTitle pros cons advice)
    else None.

(** The fallback candidates: blocks that name both sections and are short
    enough. *)
Definition isReviewDiv (d : Node) : bool :=
  includes (innerText (snd d)) (u "Pros")
  && includes (innerText (snd d)) (u "Cons")
  && (len (innerText (snd d)) <? 2000)%Z.

Definition reviewDivs (doc : Element) : list Node :=
  filter isReviewDiv (querySelectorAll doc (ByTag (u "div"))).

(** Candidates not inside another candidate. *)
Definition uniqueDivs (doc : Element) : list Node :=
  filter (fun d =>
            negb (existsb (fun other =>
                             negb (same_node (fst other) (fst d))
                             && contains (fst other) (fst d))
                          (reviewDivs doc)))
         (reviewDivs doc).

(** [.map(parseReviewCard).filter(r => r !== null)]: the records of the
    candidates that yield one. *)
Definition parseAll (cands : list Node) : list Review :=
  flat_map (fun c => match parseReviewCard (snd c) with
                     | Some r => [r]
                     | None => []
                     end) cands.

(** The function given to [page.$$eval]. *)
Definition extractReviews (doc : Element) : list Review :=
  let candidates := querySelectorAll doc (ByTag (u "li")) in
  let results := parseAll candidates in
  match results with
  | [] => parseAll (uniqueDivs doc)
  | _ => results
  end.

End Extractor.
Import Extractor.

(** ** JSON text

    [JSON.stringify(v, null, 2)] and [JSON.parse] on JSON values.  A number
    keeps its literal (number formatting is not modelled; the records of
    this program hold strings and [null] only).  The members of an object
    are listed in the order in which JavaScript enumerates own properties:
    array-index keys in ascending order, then the other keys in insertion
    order. *)

Module Json.

#[local] Set Warnings "-register-all".
Inductive json : Type :=
| JNull
| JBool (b : bool)
| JNum (literal : jsstring)
| JStr (s : jsstring)
| JArr (items : list json)
| JObj (members : list (jsstring * json)).

(** *** Serialisation *)

Definition is_high (c : N) : bool := ((55296 <=? c) && (c <=? 56319))%N.
Definition is_low (c : N) : bool := ((56320 <=? c) && (c <=? 57343))%N.

Definition hex_char (n : N) : N :=
  (if n <? 10 then 48 + n else 87 + n)%N.

(** [\uXXXX], lower-case digits. *)
Definition unicode_escape (c : N) : jsstring :=
  [92; 117; hex_char ((c / 4096) mod 16); hex_char ((c / 256) mod 16);
   hex_char ((c / 16) mod 16); hex_char (c mod 16)]%N.

(** One code unit that is not part of a surrogate pair. *)
Definition quote_unit (c : N) : jsstring :=
  (if c =? 34 then [92; 34]            (* quotation mark *)
   else if c =? 92 then [92; 92]       (* reverse solidus *)
   else if c =? 8 then [92; 98]        (* \b *)
   else if c =? 12 then [92; 102]      (* \f *)
   else if c =? 10 then [92; 110]      (* \n *)
   else if c =? 13 then [92; 114]      (* \r *)
   else if c =? 9 then [92; 116]       (* \t *)
   else if (c <? 32) || is_high c || is_low c then unicode_escape c
   else [c])%N.

(** The characters between the quotes: code points are copied, escaped
    when they are control characters, quotes, backslashes or lone
    surrogates. *)
Fixpoint quote_body (s : jsstring) : jsstring :=
  match s with
  | [] => []
  | c :: s' =>
      if is_high c
      then match s' with
           | d :: s'' =>
               if is_low d then c :: d :: quote_body s''
               else quote_unit c ++ quote_body s'
           | [] => quote_unit c
           end
      else quote_unit c ++ quote_body s'
  end.

(** QuoteJSONString. *)
Definition quote (s : jsstring) : jsstring :=
  34%N :: quote_body s ++ [34%N].

Definition spaces (n : nat) : jsstring := repeat 32%N n.

(** A line feed and the indentation of a nested line. *)
Definition newline (ind : nat) : jsstring := 10%N :: spaces ind.

(** The parts with the separator between them. *)
Definition join (sep : jsstring) (parts : list jsstring) : jsstring :=
  match parts with
  | [] => []
  | p :: ps => p ++ flat_map (fun q => sep ++ q) ps
  end.

(** SerializeJSONProperty with a gap of two spaces, at indentation [ind]:
    the elements of a non-empty array or object go on lines of their own,
    indented two spaces further. *)
Fixpoint serialize (ind : nat) (v : json) : jsstring :=
  match v with
  | JNull => u "null"
  | JBool true => u "true"
  | JBool false => u "false"
  | JNum x => x
  | JStr s => quote s
  | JArr [] => u "[]"
  | JArr items =>
      u "[" ++ newline (ind + 2)
        ++ join (u "," ++ newline (ind + 2)) (map (serialize (ind + 2)) items)
        ++ newline ind ++ u "]"
  | JObj [] => u "{}"
  | JObj ms =>
      u "{" ++ newline (ind + 2)
        ++ join (u "," ++ newline (ind + 2))
                (map (fun m : jsstring * json => let (k, x) := m in
                               quote k ++ u ": " ++ serialize (ind + 2) x) ms)
        ++ newline ind ++ u "}"
  end.

(** [JSON.stringify(v, null, 2)]. *)
Definition stringify (v : json) : jsstring := serialize 0 v.

(** *** Parsing *)

Inductive parsed (A : Type) : Type :=
| Ok (a : A) (rest : jsstring)
| SyntaxError
| OutOfFuel.
Arguments SyntaxError {A}.
Arguments OutOfFuel {A}.

(** JSON white space: tab, line feed, carriage return, space. *)
Definition is_ws (c : N) : bool :=
  ((c =? 9) || (c =? 10) || (c =? 13) || (c =? 32))%N.

Fixpoint skip_ws (s : jsstring) : jsstring :=
  match s with
  | c :: s' => if is_ws c then skip_ws s' else s
  | [] => []
  end.

Definition hex_val (c : N) : option N :=
  (if (48 <=? c) && (c <=? 57) then Some (c - 48)
   else if (97 <=? c) && (c <=? 102) then Some (c - 87)
   else if (65 <=? c) && (c <=? 70) then Some (c - 55)
   else None)%N.

Definition hex4 (a b c d : N) : option N :=
  match hex_val a, hex_val b, hex_val c, hex_val d with
  | Some x, Some y, Some z, Some w => Some (4096 * x + 256 * y + 16 * z + w)%N
  | _, _, _, _ => None
  end.

(** The character a single-letter escape stands for. *)
Definition unescape (e : N) : option N :=
  (if e =? 34 then Some 34
   else if e =? 92 then Some 92
   else if e =? 47 then Some 47
   else if e =? 98 then Some 8
   else if e =? 102 then Some 12
   else if e =? 110 then Some 10
   else if e =? 114 then Some 13
   else if e =? 116 then Some 9
   else None)%N.

Definition prepend (c : N) (r : option (jsstring * jsstring))
  : option (jsstring * jsstring) :=
  match r with
  | Some (x, rest) => Some (c :: x, rest)
  | None => None
  end.

(** The characters of a string literal after its opening quote, and what
    follows the closing quote. *)
Fixpoint string_body (s : jsstring) : option (jsstring * jsstring) :=
  match s with
  | [] => None
  | c :: s' =>
      if (c =? 34)%N then Some ([], s')
      else if (c =? 92)%N then
        match s' with
        | [] => None
        | e :: s'' =>
            if (e =? 117)%N then
              match s'' with
              | a :: b :: c' :: d :: s3 =>
                  match hex4 a b c' d with
                  | Some x => prepend x (string_body s3)
                  | None => None
                  end
              | _ => None
              end
            else match unescape e with
                 | Some x => prepend x (string_body s'')
                 | None => None
                 end
        end
      else if (c <? 32)%N then None
      else prepend c (string_body s')
  end.

(** The longest run of decimal digits at the head of [s]. *)
Fixpoint digits (s : jsstring) : jsstring * jsstring :=
  match s with
  | c :: s' =>
      if digit c then let (d, r) := digits s' in (c :: d, r) else ([], s)
  | [] => ([], [])
  end.

(** A number literal: an optional minus sign; a zero, or a non-zero digit
    and further digits; optionally a point and digits; optionally [e] or
    [E], a sign and digits. *)
Definition number (s : jsstring) : option (jsstring * jsstring) :=
  let (sign, s1) :=
    match s with
    | c :: t => if (c =? 45)%N then ([c], t) else ([], s)
    | [] => ([], s)
    end in
  let int :=
    match s1 with
    | c :: t =>
        if (c =? 48)%N then Some ([c], t)
        else if digit c then let (d, r) := digits t in Some (c :: d, r)
        else None
    | [] => None
    end in
  match int with
  | None => None
  | Some (i, s2) =>
      let frac :=
        match s2 with
        | c :: t =>
            if (c =? 46)%N
            then match digits t with
                 | ([], _) => None
                 | (d, r) => Some (c :: d, r)
                 end
            else Some ([], s2)
        | [] => Some ([], s2)
        end in
      match frac with
      | None => None
      | Some (f, s3) =>
          let exp :=
            match s3 with
            | c :: t =>
                if (c =? 101)%N || (c =? 69)%N
                then
                  let (sg, t') :=
                    match t with
                    | g :: t1 =>
                        if (g =? 43)%N || (g =? 45)%N then ([g], t1) else ([], t)
                    | [] => ([], t)
                    end in
                  match digits t' with
                  | ([], _) => None
                  | (d, r) => Some (c :: sg ++ d, r)
                  end
                else Some ([], s3)
            | [] => Some ([], s3)
            end in
          match exp with
          | None => None
          | Some (e, s4) => Some (sign ++ i ++ f ++ e, s4)
          end
      end
  end.

(** The array index a property key denotes, if it is one: a canonical
    decimal numeral at most [2^32 - 2]. *)
Definition array_index (k : jsstring) : option N :=
  match k with
  | [] => None
  | c :: t =>
      if forallb digit k && (negb (c =? 48)%N || match t with [] => true | _ => false end)
      then let n := fold_left (fun a d => 10 * a + (d - 48))%N k 0%N in
           if (n <=? 4294967294)%N then Some n else None
      else None
  end.

Definition has_key (k : jsstring) (ms : list (jsstring * json)) : bool :=
  existsb (fun m => JsString.eqb (fst m) k) ms.

(** A new array-index key goes before the first key that is not a
    smaller array index. *)
Fixpoint insert_index (n : N) (k : jsstring) (v : json)
         (ms : list (jsstring * json)) : list (jsstring * json) :=
  match ms with
  | [] => [(k, v)]
  | (k', v') :: ms' =>
      match array_index k' with
      | Some n' =>
          if (n' <? n)%N then (k', v') :: insert_index n k v ms'
          else (k, v) :: ms
      | None => (k, v) :: ms
      end
  end.

(** CreateDataProperty on the object under construction: an existing
    key keeps its place and takes the new value. *)
Definition obj_set (k : jsstring) (v : json) (ms : list (jsstring * json))
  : list (jsstring * json) :=
  if has_key k ms
  then map (fun m => if JsString.eqb (fst m) k then (k, v) else m) ms
  else match array_index k with
       | Some n => insert_index n k v ms
       | None => ms ++ [(k, v)]
       end.

Fixpoint parse_value (fuel : nat) (s : jsstring) {struct fuel} : parsed json :=
  match fuel with
  | 0 => OutOfFuel
  | S f =>
      match skip_ws s with
      | [] => SyntaxError
      | c :: t =>
          if (c =? 91)%N then
            match skip_ws t with
            | 93%N :: r => Ok (JArr []) r
            | _ => parse_elements f [] t
            end
          else if (c =? 123)%N then
            match skip_ws t with
            | 125%N :: r => Ok (JObj []) r
            | _ => parse_members f [] t
            end
          else if (c =? 34)%N then
            match string_body t with
            | Some (x, r) => Ok (JStr x) r
            | None => SyntaxError
            end
          else if starts (u "null") (c :: t) then Ok JNull (skipn 4 (c :: t))
          else if starts (u "true") (c :: t) then Ok (JBool true) (skipn 4 (c :: t))
          else if starts (u "false") (c :: t) then Ok (JBool false) (skipn 5 (c :: t))
          else match number (c :: t) with
               | Some (x, r) => Ok (JNum x) r
               | None => SyntaxError
               end
      end
  end

(** The elements of an array after [[] or a comma; [acc] holds the
    elements read so far, last first. *)
with parse_elements (fuel : nat) (acc : list json) (s : jsstring)
     {struct fuel} : parsed json :=
  match fuel with
  | 0 => OutOfFuel
  | S f =>
      match parse_value f s with
      | Ok v r =>
          match skip_ws r with
          | 44%N :: r' => parse_elements f (v :: acc) r'
          | 93%N :: r' => Ok (JArr (rev (v :: acc))) r'
          | _ => SyntaxError
          end
      | SyntaxError => SyntaxError
      | OutOfFuel => OutOfFuel
      end
  end

(** The members of an object after [{] or a comma. *)
with parse_members (fuel : nat) (acc : list (jsstring * json)) (s : jsstring)
     {struct fuel} : parsed json :=
  match fuel with
  | 0 => OutOfFuel
  | S f =>
      match skip_ws s with
      | 34%N :: t =>
          match string_body t with
          | Some (k, r) =>
              match skip_ws r with
              | 58%N :: r' =>
                  match parse_value f r' with
                  | Ok v r2 =>
                      match skip_ws r2 with
                      | 44%N :: r3 => parse_members f (obj_set k v acc) r3
                      | 125%N :: r3 => Ok (JObj (obj_set k v acc)) r3
                      | _ => SyntaxError
                      end
                  | SyntaxError => SyntaxError
                  | OutOfFuel => OutOfFuel
                  end
              | _ => SyntaxError
              end
          | None => SyntaxError
          end
      | _ => SyntaxError
      end
  end.

(** Fuel that every text can be parsed with: two steps per code unit. *)
Definition fuel_for (s : jsstring) : nat := S (2 * length s).

(** [JSON.parse(s)]; [None] when it throws a SyntaxError. *)
Definition parse (s : jsstring) : option json :=
  match parse_value (fuel_for s) s with
  | Ok v r => match skip_ws r with
              | [] => Some v
              | _ => None
              end
  | _ => None
  end.

(** Values that are read back as they are written: they hold no number,
    and the keys of every object are distinct and none is an array
    index. *)
Fixpoint plain (v : json) : Prop :=
  match v with
  | JNum _ => False
  | JArr items => fold_right (fun x acc => plain x /\ acc) True items
  | JObj ms =>
      NoDup (map fst ms)
      /\ Forall (fun k => array_index k = None) (map fst ms)
      /\ fold_right (fun m acc => plain (snd m) /\ acc) True ms
  | _ => True
  end.

(** Induction on JSON values, with the hypothesis for every element and
    member. *)
Section JsonInduction.

Variable P : json -> Prop.
Hypothesis Hnull : P JNull.
Hypothesis Hbool : forall b, P (JBool b).
Hypothesis Hnum : forall x, P (JNum x).
Hypothesis Hstr : forall s, P (JStr s).
Hypothesis Harr : forall items, Forall P items -> P (JArr items).
Hypothesis Hobj : forall ms, Forall (fun m => P (snd m)) ms -> P (JObj ms).

Fixpoint json_nested_ind (v : json) : P v :=
  match v with
  | JNull => Hnull
  | JBool b => Hbool b
  | JNum x => Hnum x
  | JStr s => Hstr s
  | JArr items =>
      @Harr items
           ((fix all (l : list json) : Forall P l :=
               match l with
               | [] => Forall_nil P
               | x :: l' => Forall_cons x (json_nested_ind x) (all l')
               end) items)
  | JObj ms =>
      @Hobj ms
           ((fix all (l : list (jsstring * json))
               : Forall (fun m => P (snd m)) l :=
               match l with
               | [] => Forall_nil _
               | m :: l' => Forall_cons m (json_nested_ind (snd m)) (all l')
               end) ms)
  end.

End JsonInduction.

(** The text of one member of an object. *)
Definition member_text (ind : nat) (m : jsstring * json) : jsstring :=
  let (k, x) := m in quote k ++ u ": " ++ serialize ind x.

(** A value is read back from its text, whatever follows it. *)
Definition reads_back (v : json) : Prop :=
  forall ind rest fuel,
    2 * length (serialize ind v ++ rest) < fuel ->
    parse_value fuel (serialize ind v ++ rest) = Ok v rest.

(** With enough fuel for its input, a parsing function gives a verdict
    and, when it accepts, leaves no more than it was given. *)
Definition settles (res : parsed json) (s : jsstring) : Prop :=
  res <> OutOfFuel /\ forall v r, res = Ok v r -> length r <= length s.

End Json.
Import Json.

(** ** The persisted store: [saveData] *)

Module Store.

(** A call either returns or throws. *)
Inductive outcome (A : Type) : Type :=
| Returned (a : A)
| Thrown.
Arguments Thrown {A}.

(** The state of [OUTPUT_FILE]: its text, [None] while the file does not
    exist.  The text stands for the bytes on disk, which
    [readFileSync]/[writeFileSync] decode and encode. *)
Definition file := option jsstring.

(** The code points of a string, each as a string: what iterating a
    string yields. *)
Fixpoint code_points (s : jsstring) : list jsstring :=
  match s with
  | [] => []
  | c :: s' =>
      if is_high c
      then match s' with
           | d :: s'' =>
               if is_low d then [c; d] :: code_points s''
               else [c] :: code_points s'
           | [] => [[c]]
           end
      else [c] :: code_points s'
  end.

(** [[...v]]: arrays and strings are iterable, the other JSON values are
    not. *)
Definition spread (v : json) : outcome (list json) :=
  match v with
  | JArr l => Returned l
  | JStr s => Returned (map JStr (code_points s))
  | _ => Thrown
  end.

Definition nullable (v : option jsstring) : json :=
  match v with
  | Some s => JStr s
  | None => JNull
  end.

(** [{ company: companyName, ...r }]. *)
Definition review_json (company : jsstring) (r : Review) : json :=
  JObj [(u "company", JStr company);
        (u "rating", nullable (rating r));
        (u "date", nullable (date r));
        (u "title", nullable (title r));
        (u "job_title", nullable (job_title r));
        (u "pros", nullable (pros r));
        (u "cons", nullable (cons r));
        (u "advice", nullable (advice r))].

Definition saveData (f : file) (newData : list json) : outcome file :=
  let existing :=
    match f with
    | Some content =>
        match parse content with
        | Some v => v
        | None => JArr []            (* catch (e) {} *)
        end
    | None => JArr []
    end in
  match spread existing with
  | Returned old => Returned (Some (stringify (JArr (old ++ newData))))
  | Thrown => Thrown
  end.

(** A run of calls, one batch after the other, until one throws. *)
Fixpoint saveAll (f : file) (batches : list (list json)) : outcome file :=
  match batches with
  | [] => Returned f
  | b :: bs =>
      match saveData f b with
      | Returned f' => saveAll f' bs
      | Thrown => Thrown
      end
  end.

(** The array a store file holds, when it holds one. *)
Definition stored (f : file) : option (list json) :=
  match f with
  | Some content =>
      match parse content with
      | Some (JArr l) => Some l
      | _ => None
      end
  | None => None
  end.

End Store.
Import Store.

(** ** The page loop of [scrapeGlassdoor] *)

Module Pagination.

Definition MAX_PAGES_PER_COMPANY : nat := 30.

(** What the locator of the next control reports. *)
Record NextControl : Type := mkNext {
  count : nat;
  isVisible : bool;
  isDisabled : bool;
  classAttr : option jsstring
}.

(** The pagination block of one iteration: some call in it threw, or
    every call it made returned. *)
Inductive NextProbe : Type :=
| Raised
| Seen (c : NextControl).

(** One iteration as the browser presents it: the scroll or the
    evaluation in the page rejects, or the page renders a document and
    a pagination block. *)
Inductive PageView : Type :=
| PageLost
| Page (doc : Element) (next : NextProbe).

(** The pagination block breaks out of the loop. *)
Definition breaks (p : NextProbe) : bool :=
  match p with
  | Raised => true
  | Seen c =>
      if count c =? 0 then true
      else
        let classList := match classAttr c with Some x => x | None => [] end in
        let isClassDisabled := includes classList (u "disabled") in
        if negb (isVisible c) then true
        else if isDisabled c || isClassDisabled then true
        else false
  end.

Inductive LoopEnd : Type :=
| Broke        (* break *)
| Exhausted    (* i reached MAX_PAGES_PER_COMPANY *)
| Rejected.    (* an exception left the loop *)

Record LoopResult : Type := mkResult {
  pages : nat;         (* iterations begun *)
  store : file;
  ending : LoopEnd
}.

(** The loop from iteration [i] on, with [remaining] iterations left
    before the bound. *)
Fixpoint pageLoop (company : jsstring) (views : nat -> PageView)
         (remaining i : nat) (st : file) : LoopResult :=
  match remaining with
  | 0 => mkResult i st Exhausted
  | S n =>
      match views i with
      | PageLost => mkResult (S i) st Rejected
      | Page doc next =>
          let reviews := extractReviews doc in
          let saved :=
            match reviews with
            | [] => Returned st
            | _ => saveData st (map (review_json company) reviews)
            end in
          match saved with
          | Thrown => mkResult (S i) st Rejected
          | Returned st' =>
              if breaks next then mkResult (S i) st' Broke
              else pageLoop company views n (S i) st'
          end
      end
  end.

(** [for (let i = 0; i < MAX_PAGES_PER_COMPANY; i++) ...]. *)
Definition scrapePages (company : jsstring) (views : nat -> PageView)
           (st : file) : LoopResult :=
  pageLoop company views MAX_PAGES_PER_COMPANY 0 st.

End Pagination.
Import Pagination.

(** ** Terms of the specification *)

Module Spec.

(** [k] occurs in [s] at position [p]. *)
Definition occurs_at (s k : jsstring) (p : nat) : Prop :=
  p <= length s /\ exists post, skipn p s = k ++ post.

(** The value of a decimal numeral: digits, optionally a point and
    digits. *)
Definition numeral (ds : jsstring) : N :=
  fold_left (fun a d => 10 * a + (d - 48))%N ds 0%N.

Definition decimal_value (s : jsstring) : option Q :=
  match digits s with
  | ([], _) => None
  | (ip, []) => Some (inject_Z (Z.of_N (numeral ip)))
  | (ip, c :: fr) =>
      if (c =? 46)%N && forallb digit fr
         && match fr with [] => false | _ => true end
      then Some (Qmake (Z.of_N (numeral (ip ++ fr)))
                       (Z.to_pos (10 ^ Z.of_nat (length fr))))
      else None
  end.

(** "rating (if present) lies in [0.0, top]": the rating is a decimal
    numeral with a value in that interval. *)
Definition rating_in_range (r : Review) (top : Q) : Prop :=
  match rating r with
  | Some s => exists q, decimal_value s = Some q /\ (0 <= q)%Q /\ (q <= top)%Q
  | None => True
  end.

(** "With only trailing punctuation normalized away and the interior of
    the section text otherwise unchanged": [out] is [raw] without the
    blanks around it and without a final run of punctuation. *)
Definition is_punct (c : N) : bool := one_of (u ":-.") c.

Definition trailing_normalized (raw out : jsstring) : Prop :=
  exists lead tail,
    raw = lead ++ out ++ tail
    /\ Forall (fun c => is_space c = true) lead
    /\ Forall (fun c => is_space c || is_punct c = true) tail.

(** The next control ends the pagination: no element matches, or the
    element is invisible, or it is disabled, by its state or by its
    class name. *)
Definition halting (c : NextControl) : Prop :=
  count c = 0 \/ isVisible c = false \/ isDisabled c = true
  \/ (exists cls, classAttr c = Some cls /\ includes cls (u "disabled") = true).

(** The candidate criteria of the fallback: a [div] of the document
    whose text names both sections in fewer than 2000 characters. *)
Definition candidate (doc : Element) (d : Node) : Prop :=
  In d (nodes doc) /\ localName (snd d) = u "div"
  /\ includes (innerText (snd d)) (u "Pros") = true
  /\ includes (innerText (snd d)) (u "Cons") = true
  /\ length (innerText (snd d)) < 2000.

(** [d] lies strictly below [a]. *)
Definition below (a d : path) : Prop :=
  a <> d /\ exists rest, d = a ++ rest.

End Spec.
Import Spec.

(** ** Sample pages *)

Module Samples.

(** The lines of a text, joined by line feeds. *)
Definition unlines (ls : list jsstring) : jsstring :=
  match ls with
  | [] => []
  | l :: ls' => l ++ flat_map (fun x => 10%N :: x) ls'
  end.

(** The text of the section example. *)
Definition section_text : jsstring :=
  u "Pros good pay Cons long hours Helpful (3)".

(** A section with punctuation inside it. *)
Definition hyphen_text : jsstring :=
  u "Pros well-paid job. Cons long hours Helpful (3)".

(** The line of the date example. *)
Definition date_line : jsstring :=
  u "Nov 28, 2025 - Current Employee - Engineer".

(** A review card as the listing shows it, and what stands before and
    after the date line in it. *)
Definition sample_text : jsstring :=
  unlines [u "5.0"; u "5 Star review"; u "Great team"; date_line;
           u "Pros"; u "good pay"; u "Cons"; u "long hours"; u "Helpful (3)"].

Definition sample_card : Element := Elem (u "li") [] sample_text [].

Definition sample_before : jsstring :=
  unlines [u "5.0"; u "5 Star review"; u "Great team"; []].

Definition sample_after : jsstring :=
  unlines [[]; u "Pros"; u "good pay"; u "Cons"; u "long hours"; u "Helpful (3)"].

(** A card that shows an earlier date above the date line. *)
Definition two_dates_card : Element :=
  Elem (u "li") []
       (unlines [u "5.0"; u "5 Star review"; u "Oct 3, 2024"; date_line;
                 u "Pros"; u "good pay"; u "Cons"; u "long hours"]) [].

(** A card whose text opens with a rating above five. *)
Definition high_rating_card : Element :=
  Elem (u "li") []
       (unlines [u "5.9"; u "5 Star review"; u "Great team"; date_line;
                 u "Pros"; u "good pay"; u "Cons"; u "long hours"]) [].

(** A card whose rating element holds no number. *)
Definition unrated_card : Element :=
  Elem (u "li") []
       (unlines [u "Great team"; u "Nov 28, 2025 - Current Employee";
                 u "Pros"; u "good pay"; u "Cons"; u "long hours"])
       [Elem (u "span") [(u "class", u "ratingNumber")] (u " N/A ") []].

(** A card with a rating signal and both sections but no rating. *)
Definition no_rating_card : Element :=
  Elem (u "li") []
       (unlines [u "5 Star review"; u "Great team"; u "Pros"; u "good pay";
                 u "Cons"; u "long hours"; u "Helpful (3)"]) [].

(** The rating summary at the head of a listing. *)
Definition summary_card : Element :=
  Elem (u "li") []
       (unlines [u "4.1"; u "5 Star"; u "(in 1,204 total reviews)";
                 u "Pros"; u "good pay"; u "Cons"; u "long hours"]) [].

(** A long text without any rating signal. *)
Definition plain_card : Element :=
  Elem (u "li") []
       (unlines [u "4.0"; u "Great team"; u "Pros"; u "good pay and benefits";
                 u "Cons"; u "long hours"; u "Helpful (3)"]) [].

(** A one-line text: too short to be a review. *)
Definition short_card : Element := Elem (u "li") [] (u "5.0 Star Pros x") [].

(** A page without list items, whose review sits in a block nested in
    another block that holds the same text. *)
Definition review_block_text : jsstring :=
  unlines [u "5.0"; u "5 Star review"; u "Pros"; u "good pay";
           u "Cons"; u "long hours"; u "Helpful (3)"].

Definition nested_doc : Element :=
  Elem (u "body") [] review_block_text
       [Elem (u "div") [] review_block_text
             [Elem (u "div") [] review_block_text []];
        Elem (u "div") [] (u "Next") []].

(** A listing page with one review card. *)
Definition listing_doc : Element :=
  Elem (u "body") [] sample_text [Elem (u "ul") [] sample_text [sample_card]].

(** The next control while there are more pages, and on the last page. *)
Definition live_next : NextControl :=
  mkNext 1 true false (Some (u "nextButton")).
Definition last_next : NextControl :=
  mkNext 1 true false (Some (u "nextButton disabled")).

(** A company with three pages of reviews. *)
Definition three_pages (i : nat) : PageView :=
  if i <? 2 then Page listing_doc (Seen live_next)
  else Page listing_doc (Seen last_next).

(** A review, and a store file cut short while it was written: the text
    of a one-review store without its closing bracket. *)
Definition sample_review : Review :=
  mkReview (Some (u "5.0")) (Some (u "Nov 28, 2025")) None
           (Some (u "Current Employee - Engineer"))
           (Some (u "good pay")) (Some (u "long hours")) None.

Definition truncated_store : jsstring :=
  removelast (stringify (JArr [review_json (u "Enbridge") sample_review])).

End Samples.
Import Samples.

(** ** The locator: from a company name to its reviews page *)

Module Locator.

(** [companyName.split(' ')[0]]. *)
Definition firstWord (companyName : jsstring) : jsstring :=
  hd [] (split 32 companyName).

(** What a link locator reports: [isVisible()] and
    [getAttribute('href')]. *)
Record LinkProbe : Type := mkLink {
  linkVisible : bool;
  linkHref : option jsstring
}.

(** The results page as the three strategies see it: a call in their
    [try] block threw, or the page answers the link queries by accessible
    name and shows (or not) a logo link. *)
Inductive LinkSearch : Type :=
| LinksRaise
| Links (linkNamed : jsstring -> LinkProbe) (logoLink : LinkProbe).

(** [targetUrl] after the [try] block: the [href] of the first visible
    link among the exact, the partial and the logo link; [null] when none
    is visible or a call threw. *)
Definition pickTarget (companyName : jsstring) (s : LinkSearch)
  : option jsstring :=
  match s with
  | LinksRaise => None
  | Links linkNamed logoLink =>
      let exactLink := linkNamed companyName in
      let partialLink := linkNamed (firstWord companyName) in
      if linkVisible exactLink then linkHref exactLink
      else if linkVisible partialLink then linkHref partialLink
      else if linkVisible logoLink then linkHref logoLink
      else None
  end.

(** [if (url.startsWith('/')) url = `https://www.glassdoor.ca${url}`]. *)
Definition absolutize (url : jsstring) : jsstring :=
  if starts (u "/") url then u "https://www.glassdoor.ca" ++ url else url.

(** The condition under which the script looks for the reviews tab. *)
Definition needsReviewsTab (url : jsstring) : bool :=
  negb (includes url (u "Reviews")) || includes url (u "Overview").

(** The loop over the review links: the first [href] that is set, is not
    the global index and names a company's reviews. *)
Definition validReviewUrl (hrefs : list (option jsstring)) : option jsstring :=
  match find (fun href =>
                truthy href
                && match href with
                   | Some h => negb (includes h (u "Reviews/index.htm"))
                               && includes h (u "Reviews-E")
                   | None => false
                   end) hrefs with
  | Some href => href
  | None => None
  end.

(** The search for one company, as the browser presents it once the
    search input is visible. *)
Record CompanySearch : Type := mkSearch {
  links : LinkSearch;
  targetLoads : bool;                         (* goto(targetUrl) returns *)
  landedUrl : jsstring;                       (* page.url() after it *)
  reviewLinks : outcome (list (option jsstring));
  reviewLoads : bool                          (* goto(validReviewUrl) returns *)
}.

Inductive SearchView : Type :=
| SearchRaises                 (* a call outside the inner [try] threw *)
| InputHidden                  (* the search input is not visible *)
| InputShown (s : CompanySearch).

(** What the search does: the addresses it navigates to after the
    search, and whether the script goes on to scrape pages (it
    [continue]s with the next company otherwise). *)
Record Located : Type := mkLocated {
  navigations : list jsstring;
  proceeds : bool
}.

Definition locate (companyName : jsstring) (v : SearchView) : Located :=
  match v with
  | SearchRaises => mkLocated [] false
  | InputHidden => mkLocated [] false
  | InputShown s =>
      let targetUrl := pickTarget companyName (links s) in
      match targetUrl with
      | Some url =>
          if truthy targetUrl then
            let target := absolutize url in
            if targetLoads s then
              if needsReviewsTab (landedUrl s) then
                match reviewLinks s with
                | Thrown => mkLocated [target] false
                | Returned hrefs =>
                    let valid := validReviewUrl hrefs in
                    match valid with
                    | Some v' =>
                        if truthy valid then
                          mkLocated [target; absolutize v'] (reviewLoads s)
                        else mkLocated [target] true
                    | None => mkLocated [target] true
                    end
                end
              else mkLocated [target] true
            else mkLocated [target] false
          else mkLocated [] false
      | None => mkLocated [] false
      end
  end.

End Locator.
Import Locator.

(** ** The run: every company in turn *)

Module Run.

Definition TARGET_COMPANIES : list jsstring :=
  [u "Enbridge"; u "Canadian Natural Resources"; u "Suncor Energy";
   u "TC Energy"; u "Cenovus Energy"; u "Imperial Oil"; u "Pembina Pipeline";
   u "Tourmaline Oil"; u "ARC Resources"; u "MEG Energy";
   u "Whitecap Resources"; u "Strathcona Resources"; u "Keyera";
   u "Gibson Energy"; u "Vermilion Energy"; u "Baytex Energy";
   u "Paramount Resources"; u "Peyto Exploration & Development";
   u "Athabasca Oil"; u "NuVista Energy"].

(** The reset at start-up: the old data file is deleted when it exists,
    unless [unlinkSync] throws, which is ignored. *)
Definition resetStore (f : file) (unlinkThrows : bool) : file :=
  match f with
  | Some _ => if unlinkThrows then f else None
  | None => None
  end.

(** What the browser presents for one company. *)
Record CompanyView : Type := mkCompany {
  searchView : SearchView;
  pageViews : nat -> PageView
}.

(** A company whose pages were scraped: its position in the list, its
    name and the iterations begun. *)
Record Visit : Type := mkVisit {
  visitPosition : nat;
  visitCompany : jsstring;
  visitPages : nat
}.

Record RunResult : Type := mkRun {
  finalStore : file;
  visits : list Visit;
  finished : bool       (* the loop reached the end of the list *)
}.

(** [for (const companyName of TARGET_COMPANIES)]: the companies from
    position [k] on.  An exception that leaves the page loop leaves the
    run. *)
Fixpoint scrapeCompanies (companies : list jsstring) (env : nat -> CompanyView)
         (k : nat) (st : file) : RunResult :=
  match companies with
  | [] => mkRun st [] true
  | companyName :: rest =>
      if proceeds (locate companyName (searchView (env k))) then
        let r := scrapePages companyName (pageViews (env k)) st in
        match ending r with
        | Rejected => mkRun (store r) [mkVisit k companyName (pages r)] false
        | _ =>
            let after := scrapeCompanies rest env (S k) (store r) in
            mkRun (finalStore after)
                  (mkVisit k companyName (pages r) :: visits after)
                  (finished after)
        end
      else scrapeCompanies rest env (S k) st
  end.

(** The script from start-up on. *)
Definition main (f : file) (unlinkThrows : bool) (env : nat -> CompanyView)
  : RunResult :=
  scrapeCompanies TARGET_COMPANIES env 0 (resetStore f unlinkThrows).

End Run.
Import Run.

(** ** Further terms and samples *)

Module Terms.

(** No blank at either end. *)
Definition trimmed (s : jsstring) : Prop :=
  (forall c t, s = c :: t -> is_space c = false)
  /\ (forall t c, s = t ++ [c] -> is_space c = false).

(** A store file this program can append to without loss: absent, or an
    array of plain values. *)
Definition sound (f : file) : Prop :=
  f = None \/ exists l, stored f = Some l /\ Forall plain l.

(** The values a store holds, none while it is absent. *)
Definition contents (f : file) : list json :=
  match stored f with
  | Some l => l
  | None => []
  end.

(** The records one iteration hands to [saveData]. *)
Definition page_records (companyName : jsstring) (v : PageView) : list json :=
  match v with
  | Page doc _ => map (review_json companyName) (extractReviews doc)
  | PageLost => []
  end.

(** The records of [n] iterations from iteration [i] on. *)
Definition harvest (companyName : jsstring) (views : nat -> PageView)
           (i n : nat) : list json :=
  flat_map (fun j => page_records companyName (views j)) (seq i n).

(** The records of the visits of a run. *)
Definition run_harvest (env : nat -> CompanyView) (vs : list Visit) : list json :=
  flat_map (fun v => harvest (visitCompany v) (pageViews (env (visitPosition v)))
                             0 (visitPages v)) vs.

(** A field that is absent, or has no blank at either end. *)
Definition trimmed_field (v : option jsstring) : Prop :=
  match v with
  | Some s => trimmed s
  | None => True
  end.

(** Induction on elements, with the hypothesis for every child. *)
Section ElementInduction.

Variable P : Element -> Prop.
Hypothesis Helem :
  forall tag attrs text kids, Forall P kids -> P (Elem tag attrs text kids).

Fixpoint Element_nested_ind (e : Element) : P e :=
  match e with
  | Elem tag attrs text kids =>
      @Helem tag attrs text kids
            ((fix all (l : list Element) : Forall P l :=
                match l with
                | [] => Forall_nil P
                | k :: l' => Forall_cons k (Element_nested_ind k) (all l')
                end) kids)
  end.

End ElementInduction.

(** The children of an element, numbered from [i], with the nodes below
    them: the tail of [nodes_at]. *)
Fixpoint nodes_below (p : path) (i : nat) (ks : list Element) : list Node :=
  match ks with
  | [] => []
  | k :: ks' => nodes_at (p ++ [i]) k ++ nodes_below p (S i) ks'
  end.

(** Positions that increase, starting at or after [k]. *)
Fixpoint increasing_from (k : nat) (l : list nat) : Prop :=
  match l with
  | [] => True
  | x :: l' => k <= x /\ increasing_from (S x) l'
  end.

(** A visit of a run over [companies]: the company stands at the visit's
    position, it was located, and between 1 and 30 iterations were begun. *)
Definition visit_of (companies : list jsstring) (env : nat -> CompanyView)
           (k : nat) (v : Visit) : Prop :=
  k <= visitPosition v
  /\ nth_error companies (visitPosition v - k) = Some (visitCompany v)
  /\ proceeds (locate (visitCompany v) (searchView (env (visitPosition v)))) = true
  /\ 1 <= visitPages v <= 30.

End Terms.
Import Terms.

Module MoreSamples.

(** A card whose date is broken over two lines. *)
Definition broken_date_text : jsstring :=
  unlines [u "5.0"; u "5 Star review"; u "Nov 28,"; u "2025 - Current Employee";
           u "Pros"; u "good pay"; u "Cons"; u "long hours"].

(** A results page on which only the logo link is visible, and the
    company page it leads to. *)
Definition logo_only : LinkSearch :=
  Links (fun _ => mkLink false None)
        (mkLink true (Some (u "/Overview/Working-at-Enbridge-EI_IE3559.htm"))).

Definition enbridge_search : CompanySearch :=
  mkSearch logo_only true
           (u "https://www.glassdoor.ca/Overview/Working-at-Enbridge-EI_IE3559.htm")
           (Returned [None; Some (u "/Reviews/index.htm");
                      Some (u "/Reviews/Enbridge-Reviews-E3559.htm")])
           true.

(** A run in which every company is found and shows three pages. *)
Definition steady_env (k : nat) : CompanyView :=
  mkCompany (InputShown enbridge_search) three_pages.

Definition string_store : jsstring := [34; 104; 105; 34]%N.

End MoreSamples.
Import MoreSamples.

(** * Verification *)

Unset Implicit Arguments.

(** Case analysis on a code unit that a definition compares with literal
    characters: [tac] closes every case once the comparison is decided. *)
Ltac by_code_unit c tac :=
  let p := fresh "p" in
  destruct c as [|p]; [solve [tac]|];
  repeat first [solve [tac] | destruct p as [p|p|]].

(** ** Strings *)

Section StringFacts.

Lemma starts_app (k post : jsstring) : starts k (k ++ post) = true.
Proof.
  induction k as [|a k IH]; simpl; [reflexivity|].
  now rewrite N.eqb_refl, IH.
Qed.

Lemma starts_inv (k s : jsstring) :
  starts k s = true -> exists post, s = k ++ post.
Proof.
  revert s; induction k as [|a k IH]; intros s H.
  - now exists s.
  - destruct s as [|b s]; simpl in H; [discriminate|].
    apply andb_true_iff in H as [Hab Hk].
    apply N.eqb_eq in Hab; subst b.
    destruct (IH _ Hk) as [post ->]. now exists post.
Qed.

Lemma starts_occurs (s k : jsstring) (p : nat) :
  p <= length s -> (starts k (skipn p s) = true <-> occurs_at s k p).
Proof.
  intros Hp; split.
  - intros H; split; [exact Hp|]. now apply starts_inv.
  - intros [_ [post ->]]. apply starts_app.
Qed.

(** [find_from] returns the first position at which [k] occurs. *)
Lemma find_from_spec (k s : jsstring) (i : Z) :
  (0 <= i)%Z ->
  (find_from k s i = (-1)%Z
   /\ forall p, p <= length s -> starts k (skipn p s) = false)
  \/ (exists n, find_from k s i = (i + Z.of_nat n)%Z /\ n <= length s
                /\ starts k (skipn n s) = true
                /\ forall p, p < n -> starts k (skipn p s) = false).
Proof.
  revert i; induction s as [|c s IH]; intros i Hi; simpl.
  - destruct (starts k []) eqn:E.
    + right; exists 0; simpl; repeat split; try lia; auto.
    + left; split; [reflexivity|]. intros p Hp.
      now rewrite skipn_nil.
  - destruct (starts k (c :: s)) eqn:E.
    + right; exists 0; simpl; repeat split; try lia; auto.
    + destruct (IH (i + 1)%Z ltac:(lia)) as [[Hr Hno]|[n [Hr [Hn [Hs Hno]]]]].
      * left; split; [exact Hr|]. intros [|p] Hp; simpl; [exact E|].
        apply Hno; simpl in Hp; lia.
      * right; exists (S n); simpl; repeat split; try lia; auto.
        intros [|p] Hp; simpl; [exact E|]. apply Hno; lia.
Qed.

(** [indexOf] from a position inside the string: the first occurrence
    at or after it, [-1] when there is none. *)
Lemma indexOf_spec (s k : jsstring) (pos : nat) :
  pos <= length s ->
  (indexOf s k (Z.of_nat pos) = (-1)%Z
   /\ forall p, pos <= p -> ~ occurs_at s k p)
  \/ (exists n, indexOf s k (Z.of_nat pos) = Z.of_nat n /\ pos <= n
                /\ occurs_at s k n
                /\ forall p, pos <= p < n -> ~ occurs_at s k p).
Proof.
  intros Hpos; unfold indexOf, len.
  replace (Z.min (Z.max (Z.of_nat pos) 0) (Z.of_nat (length s)))
    with (Z.of_nat pos) by lia.
  rewrite Nat2Z.id.
  destruct (find_from_spec k (skipn pos s) (Z.of_nat pos) ltac:(lia))
    as [[Hr Hno]|[n [Hr [Hn [Hs Hno]]]]].
  - left; split; [exact Hr|]. intros p Hp Hocc.
    pose proof (proj1 Hocc) as Hle.
    apply starts_occurs in Hocc; [|exact Hle].
    specialize (Hno (p - pos)).
    rewrite length_skipn, skipn_skipn in Hno.
    replace (p - pos + pos) with p in Hno by lia.
    rewrite Hno in Hocc; [discriminate|lia].
  - rewrite length_skipn in Hn. rewrite skipn_skipn in Hs.
    right; exists (pos + n).
    split; [rewrite Hr; lia|]. split; [lia|]. split.
    + split; [lia|]. apply starts_inv. now rewrite Nat.add_comm.
    + intros p Hp Hocc.
      pose proof (proj1 Hocc) as Hle.
      apply starts_occurs in Hocc; [|exact Hle].
      specialize (Hno (p - pos) ltac:(lia)).
      rewrite skipn_skipn in Hno.
      replace (p - pos + pos) with p in Hno by lia.
      congruence.
Qed.

Lemma includes_first (s k : jsstring) :
  includes s k = true ->
  exists n, indexOf s k 0 = Z.of_nat n /\ occurs_at s k n
            /\ forall p, p < n -> ~ occurs_at s k p.
Proof.
  unfold includes; intros H.
  destruct (indexOf_spec s k 0 (Nat.le_0_l _)) as [[Hr _]|[n [Hr [_ [Ho Hno]]]]];
    simpl in *.
  - rewrite Hr in H; discriminate.
  - exists n. split; [exact Hr|]. split; [exact Ho|].
    intros p Hp; apply Hno; lia.
Qed.

Lemma includes_false (s k : jsstring) :
  includes s k = false -> forall p, ~ occurs_at s k p.
Proof.
  unfold includes; intros H p.
  destruct (indexOf_spec s k 0 (Nat.le_0_l _)) as [[Hr Hno]|[n [Hr _]]];
    simpl in *.
  - apply Hno; lia.
  - rewrite Hr in H. apply negb_false_iff, Z.eqb_eq in H. lia.
Qed.

Lemma substring_ordered (s : jsstring) (a b : nat) :
  a <= b <= length s ->
  substring s (Z.of_nat a) (Z.of_nat b) = firstn (b - a) (skipn a s).
Proof.
  intros H; unfold substring, len.
  replace (Z.min (Z.max (Z.of_nat a) 0) (Z.of_nat (length s)))
    with (Z.of_nat a) by lia.
  replace (Z.min (Z.max (Z.of_nat b) 0) (Z.of_nat (length s)))
    with (Z.of_nat b) by lia.
  replace (Z.min (Z.of_nat a) (Z.of_nat b)) with (Z.of_nat a) by lia.
  replace (Z.max (Z.of_nat a) (Z.of_nat b)) with (Z.of_nat b) by lia.
  rewrite Nat2Z.id. f_equal. lia.
Qed.

Lemma trimStart_spec (s : jsstring) :
  exists lead,
    s = lead ++ trimStart s
    /\ Forall (fun c => is_space c = true) lead
    /\ forall c t, trimStart s = c :: t -> is_space c = false.
Proof.
  induction s as [|c s (lead & E & F & H)]; cbn [trimStart].
  - exists []. repeat split; [constructor|discriminate].
  - destruct (is_space c) eqn:Ec.
    + exists (c :: lead). split; [cbn [app]; now rewrite <- E|].
      split; [now constructor|exact H].
    + exists []. split; [reflexivity|]. split; [constructor|].
      intros c' t E'. injection E' as <- <-. exact Ec.
Qed.

(** [trim] removes the blanks at both ends and nothing else. *)
Lemma trim_spec (s : jsstring) :
  exists lead tail,
    s = lead ++ trim s ++ tail
    /\ Forall (fun c => is_space c = true) lead
    /\ Forall (fun c => is_space c = true) tail
    /\ (forall c t, trim s = c :: t -> is_space c = false)
    /\ (forall t c, trim s = t ++ [c] -> is_space c = false).
Proof.
  destruct (trimStart_spec s) as (lead & E & F & H).
  destruct (trimStart_spec (rev (trimStart s))) as (tail & E' & F' & H').
  unfold trim, trimEnd.
  apply (f_equal (@rev N)) in E'. rewrite rev_involutive, rev_app_distr in E'.
  exists lead, (rev tail). split; [now rewrite <- E'|].
  split; [exact F|]. split; [now apply Forall_rev|]. split.
  - intros c t Et. apply (H c (t ++ rev tail)). rewrite E', Et. reflexivity.
  - intros t c Et. apply (H' c (rev t)).
    apply (f_equal (@rev N)) in Et.
    rewrite rev_involutive, rev_app_distr in Et. exact Et.
Qed.

End StringFacts.

(** ** Section extraction *)

Section Sections.

Lemma removeAll_from_class (p : N -> bool) (s : jsstring) (i : nat) :
  removeAll_from (Cls p) i 0 s = filter (fun c => negb (p c)) s.
Proof.
  revert i; induction s as [|c s IH]; intros i; simpl; [reflexivity|].
  destruct (p c); simpl; now rewrite IH.
Qed.

(** Removing every match of a one-character class is a filter. *)
Lemma removeAll_class (p : N -> bool) (s : jsstring) :
  removeAll (Cls p) s = filter (fun c => negb (p c)) s.
Proof. apply removeAll_from_class. Qed.

(** The loop over the terminators keeps the least position found. *)
Lemma nearest_fold (text : jsstring) (start : nat) (ends : list jsstring) :
  forall e, start <= e <= length text ->
  exists e',
    fold_left
      (fun endIndex key =>
         let idx := indexOf text key (Z.of_nat start) in
         if negb (idx =? -1)%Z && (idx <? endIndex)%Z then idx else endIndex)
      ends (Z.of_nat e) = Z.of_nat e'
    /\ start <= e' <= e
    /\ (forall k, In k ends ->
        forall p, start <= p < e' -> ~ occurs_at text k p)
    /\ (e' = e \/ exists k, In k ends /\ occurs_at text k e').
Proof.
  induction ends as [|key ends IH]; intros e He; simpl.
  - exists e. split; [reflexivity|]. split; [lia|].
    split; [intros k []|now left].
  - destruct (indexOf_spec text key start ltac:(lia))
      as [[Hr Hno]|[n [Hr [Hn [Hocc Hfirst]]]]]; rewrite Hr.
    + simpl. destruct (IH e He) as [e' [Hf [Hb [Hnone Hat]]]].
      exists e'; split; [exact Hf|]. split; [exact Hb|]. split.
      * intros k [<-|Hk] p Hp; [apply Hno; lia|now apply Hnone].
      * destruct Hat as [->|[k [Hk Ho]]]; [now left|right].
        exists k; split; [now right|exact Ho].
    + replace (negb (Z.of_nat n =? -1)%Z) with true
        by (symmetry; apply negb_true_iff, Z.eqb_neq; lia).
      simpl. destruct (Z.ltb_spec (Z.of_nat n) (Z.of_nat e)) as [Hlt|Hge].
      * destruct (IH n ltac:(lia)) as [e' [Hf [Hb [Hnone Hat]]]].
        exists e'; split; [exact Hf|]. split; [lia|]. split.
        -- intros k [<-|Hk] p Hp; [apply Hfirst; lia|now apply Hnone].
        -- right. destruct Hat as [->|[k [Hk Ho]]].
           ++ exists key; split; [now left|exact Hocc].
           ++ exists k; split; [now right|exact Ho].
      * destruct (IH e He) as [e' [Hf [Hb [Hnone Hat]]]].
        exists e'; split; [exact Hf|]. split; [exact Hb|]. split.
        -- intros k [<-|Hk] p Hp; [apply Hfirst; lia|now apply Hnone].
        -- destruct Hat as [->|[k [Hk Ho]]]; [now left|right].
           exists k; split; [now right|exact Ho].
Qed.

Lemma nearestEnd_spec (text : jsstring) (start : nat) (ends : list jsstring) :
  start <= length text ->
  exists e,
    nearestEnd text (Z.of_nat start) ends = Z.of_nat e
    /\ start <= e <= length text
    /\ (forall k, In k ends ->
        forall p, start <= p < e -> ~ occurs_at text k p)
    /\ (e = length text \/ exists k, In k ends /\ occurs_at text k e).
Proof.
  intros H. unfold nearestEnd, len. apply nearest_fold. lia.
Qed.

Lemma occurs_at_bound (s k : jsstring) (p : nat) :
  occurs_at s k p -> p + length k <= length s.
Proof.
  intros [Hp [post E]].
  assert (L : length (skipn p s) = length (k ++ post)) by now rewrite E.
  rewrite length_skipn, length_app in L. lia.
Qed.

Lemma infix_occurs (raw lead out tail : jsstring) :
  raw = lead ++ out ++ tail -> occurs_at raw out (length lead).
Proof.
  intros ->; split.
  - rewrite length_app; lia.
  - exists tail. rewrite skipn_app, skipn_all, Nat.sub_diag. reflexivity.
Qed.

End Sections.

(** C4. On the text "Pros good pay Cons long hours Helpful (3)",
    [getSection] yields "good pay" for "Pros" with terminators "Cons",
    "Advice to Management", "Helpful", and "long hours" for "Cons" with
    terminators "Advice to Management", "Helpful". *)
Theorem getSection_example :
  getSection section_text (u "Pros")
             [u "Cons"; u "Advice to Management"; u "Helpful"]
  = Some (u "good pay")
  /\ getSection section_text (u "Cons") [u "Advice to Management"; u "Helpful"]
     = Some (u "long hours").
Proof. split; vm_compute; reflexivity. Qed.

(** C5, as the code has it.  For a text that contains the start keyword,
    the section is the substring from just after the first occurrence of
    the keyword to the nearest later occurrence of a terminator (the end
    of the text when there is none), with every colon, hyphen and period
    removed, wherever it stands, and the blanks at both ends trimmed. *)
Theorem getSection_content (text kw : jsstring) (ends : list jsstring) :
  includes text kw = true ->
  exists p e,
    (occurs_at text kw p /\ forall q, q < p -> ~ occurs_at text kw q)
    /\ p + length kw <= e <= length text
    /\ (forall k, In k ends ->
        forall q, p + length kw <= q < e -> ~ occurs_at text k q)
    /\ (e = length text \/ exists k, In k ends /\ occurs_at text k e)
    /\ getSection text kw ends
       = Some (trim (filter (fun c => negb (is_punct c))
                            (firstn (e - (p + length kw))
                                    (skipn (p + length kw) text)))).
Proof.
  intros Hinc. unfold getSection. rewrite Hinc. simpl negb. cbv iota zeta.
  destruct (includes_first text kw Hinc) as [p [Hidx [Hocc Hfirst]]].
  pose proof (occurs_at_bound text kw p Hocc) as Hb.
  rewrite Hidx. unfold len at 1 2.
  replace (Z.of_nat p + Z.of_nat (length kw))%Z
    with (Z.of_nat (p + length kw)) by lia.
  destruct (nearestEnd_spec text (p + length kw) ends ltac:(lia))
    as [e [Hf [He [Hnone Hat]]]].
  rewrite Hf.
  exists p, e. split; [split; assumption|]. split; [lia|].
  split; [exact Hnone|]. split; [exact Hat|].
  rewrite substring_ordered by lia. unfold punct_re.
  rewrite removeAll_class. reflexivity.
Qed.

Lemma getSection_content_witness :
  exists p e,
    (occurs_at section_text (u "Pros") p
     /\ forall q, q < p -> ~ occurs_at section_text (u "Pros") q)
    /\ p + length (u "Pros") <= e <= length section_text
    /\ (forall k, In k [u "Cons"; u "Helpful"] ->
        forall q, p + length (u "Pros") <= q < e -> ~ occurs_at section_text k q)
    /\ (e = length section_text
        \/ exists k, In k [u "Cons"; u "Helpful"] /\ occurs_at section_text k e)
    /\ getSection section_text (u "Pros") [u "Cons"; u "Helpful"]
       = Some (trim (filter (fun c => negb (is_punct c))
                            (firstn (e - (p + length (u "Pros")))
                                    (skipn (p + length (u "Pros")) section_text)))).
Proof.
  apply (getSection_content section_text (u "Pros") [u "Cons"; u "Helpful"]).
  vm_compute; reflexivity.
Defined.

(** C5 as stated fails: punctuation inside a section is removed too.  On
    "Pros well-paid job. Cons long hours Helpful (3)" the section is
    "wellpaid job", which occurs nowhere in the text between the keyword
    and its terminator. *)
Lemma getSection_interior_changed :
  getSection hyphen_text (u "Pros") [u "Cons"; u "Advice to Management"; u "Helpful"]
  = Some (u "wellpaid job")
  /\ substring hyphen_text 4 20 = u " well-paid job. "
  /\ ~ trailing_normalized (substring hyphen_text 4 20) (u "wellpaid job").
Proof.
  split; [vm_compute; reflexivity|]. split; [vm_compute; reflexivity|].
  intros [lead [tail [E _]]].
  apply infix_occurs in E. revert E.
  apply includes_false. vm_compute; reflexivity.
Qed.

(** ** Rejection and retention in [parseReviewCard] *)

Section Retention.

Lemma truthy_nonempty (v : option jsstring) :
  truthy v = true <-> exists s, v = Some s /\ s <> [].
Proof.
  split.
  - destruct v as [[|c s]|]; simpl; try discriminate.
    intros _; exists (c :: s); split; [reflexivity|discriminate].
  - intros [s [-> Hs]]. destruct s; [contradiction|reflexivity].
Qed.

(** What an accepted card's record holds. *)
Lemma parseReviewCard_fields (card : Element) (r : Review) :
  parseReviewCard card = Some r ->
  let text := innerText card in
  isGarbage card text = false
  /\ rating r = findRating card text
  /\ date r = findDate text
  /\ title r = findTitle card
  /\ job_title r = findJobTitle text (findDate text)
  /\ pros r = getSection text (u "Pros")
                [u "Cons"; u "Advice to Management"; u "Helpful"]
  /\ cons r = getSection text (u "Cons") [u "Advice to Management"; u "Helpful"]
  /\ advice r = getSection text (u "Advice to Management") [u "Helpful"]
  /\ truthy (rating r) && (truthy (pros r) || truthy (cons r) || truthy (title r))
     = true.
Proof.
  unfold parseReviewCard. cbv zeta.
  destruct (isGarbage card (innerText card)); [discriminate|].
  destruct (truthy (findRating card (innerText card)) && _) eqn:K;
    [|discriminate].
  intros E; injection E as <-. simpl. rewrite K. repeat split.
Qed.

End Retention.

(** C1. A card yields a record only if a rating was extracted and at least
    one of pros, cons and title is present (neither null nor empty); a card
    for which this fails yields no record. *)
Theorem parseReviewCard_retention (card : Element) :
  (forall r, parseReviewCard card = Some r ->
     (exists s, rating r = Some s /\ s <> [])
     /\ ((exists s, pros r = Some s /\ s <> [])
         \/ (exists s, cons r = Some s /\ s <> [])
         \/ (exists s, title r = Some s /\ s <> [])))
  /\ (truthy (findRating card (innerText card))
      && (truthy (getSection (innerText card) (u "Pros")
                    [u "Cons"; u "Advice to Management"; u "Helpful"])
          || truthy (getSection (innerText card) (u "Cons")
                       [u "Advice to Management"; u "Helpful"])
          || truthy (findTitle card)) = false ->
      parseReviewCard card = None).
Proof.
  split.
  - intros r H. apply parseReviewCard_fields in H.
    destruct H as (_ & _ & _ & _ & _ & _ & _ & _ & K).
    apply andb_true_iff in K as [Kr K]. split; [now apply truthy_nonempty|].
    apply orb_true_iff in K as [K|K]; [apply orb_true_iff in K as [K|K]|].
    + left; now apply truthy_nonempty.
    + right; left; now apply truthy_nonempty.
    + right; right; now apply truthy_nonempty.
  - intros K. unfold parseReviewCard. cbv zeta.
    destruct (isGarbage card (innerText card)); [reflexivity|].
    now rewrite K.
Qed.

Lemma parseReviewCard_retention_witness :
  (exists r, parseReviewCard sample_card = Some r
             /\ (exists s, rating r = Some s /\ s <> [])
             /\ ((exists s, pros r = Some s /\ s <> [])
                 \/ (exists s, cons r = Some s /\ s <> [])
                 \/ (exists s, title r = Some s /\ s <> [])))
  /\ parseReviewCard no_rating_card = None.
Proof.
  split.
  - eexists; split; [vm_compute; reflexivity|].
    apply (proj1 (parseReviewCard_retention sample_card)).
    vm_compute; reflexivity.
  - apply (proj2 (parseReviewCard_retention no_rating_card)).
    vm_compute; reflexivity.
Defined.

(** C9. A card yields no record when its text matches the aggregate-count
    pattern (it contains both "(in " and "reviews)"), or is shorter than 50
    characters, or has no rating signal (no "Star" in the text, no element
    of class ratingNumber and no span whose class contains "rating"
    below it). *)
Theorem parseReviewCard_rejects (card : Element) :
  (includes (innerText card) (u "(in ") = true
   /\ includes (innerText card) (u "reviews)") = true)
  \/ length (innerText card) < 50
  \/ (includes (innerText card) (u "Star") = false
      /\ querySelector card sel_ratingNumber = None
      /\ querySelector card sel_ratingSpan = None) ->
  parseReviewCard card = None.
Proof.
  intros H. unfold parseReviewCard. cbv zeta.
  replace (isGarbage card (innerText card)) with true; [reflexivity|].
  symmetry. unfold isGarbage.
  destruct H as [[H1 H2]|[H|[H1 [H2 H3]]]].
  - now rewrite H1, H2.
  - replace (len (innerText card) <? 50)%Z with true.
    + now rewrite orb_true_r.
    + symmetry; apply Z.ltb_lt. unfold len. lia.
  - rewrite H1, H2, H3. simpl. now rewrite orb_true_r.
Qed.

Lemma parseReviewCard_rejects_witness :
  parseReviewCard summary_card = None
  /\ parseReviewCard short_card = None
  /\ parseReviewCard plain_card = None.
Proof.
  split; [|split].
  - apply parseReviewCard_rejects. left. split; vm_compute; reflexivity.
  - apply parseReviewCard_rejects. right; left. vm_compute. lia.
  - apply parseReviewCard_rejects. right; right.
    repeat split; vm_compute; reflexivity.
Defined.

(** ** The rating *)

Section Rating.

(** The anchored pattern matches at the start of the text only. *)
Lemma rating_re_later (s : jsstring) (i : nat) :
  search_from rating_re (S i) s = None.
Proof.
  revert i; induction s as [|c s IH]; intros i; simpl; [reflexivity|].
  apply IH.
Qed.

(** A match of [/^[0-5]\.\d/]: a digit up to five, a period and a digit
    at the head of the text. *)
Lemma rating_re_match (text m : jsstring) :
  match0 rating_re text = Some m ->
  exists d f rest,
    text = d :: 46%N :: f :: rest /\ m = [d; 46%N; f]
    /\ (48 <= d <= 53)%N /\ (48 <= f <= 57)%N.
Proof.
  unfold match0, exec.
  destruct text as [|d text]; [discriminate|].
  unfold search_from; fold search_from. rewrite rating_re_later.
  simpl matches.
  destruct (between 48 53 d) eqn:Hd; [|discriminate].
  destruct text as [|c text]; [discriminate|].
  simpl. unfold chr. destruct (N.eqb_spec c (N_of_ascii ".")) as [->|];
    [|discriminate].
  destruct text as [|f text]; [discriminate|].
  simpl. destruct (digit f) eqn:Hf; [|discriminate].
  simpl. intros E; injection E as <-.
  exists d, f, text. split; [reflexivity|]. split; [reflexivity|].
  unfold digit, between in *.
  apply andb_true_iff in Hd as [H1 H2], Hf as [H3 H4].
  apply N.leb_le in H1, H2, H3, H4. lia.
Qed.

Lemma small_digit_cases (d : N) :
  (48 <= d <= 53)%N ->
  (d = 48 \/ d = 49 \/ d = 50 \/ d = 51 \/ d = 52 \/ d = 53)%N.
Proof. lia. Qed.

Lemma digit_cases (f : N) :
  (48 <= f <= 57)%N ->
  (f = 48 \/ f = 49 \/ f = 50 \/ f = 51 \/ f = 52 \/ f = 53 \/ f = 54
   \/ f = 55 \/ f = 56 \/ f = 57)%N.
Proof. lia. Qed.

(** The value of a matched rating is at most 5.9. *)
Lemma rating_pattern_value (d f : N) :
  (48 <= d <= 53)%N -> (48 <= f <= 57)%N ->
  exists q, decimal_value [d; 46%N; f] = Some q
            /\ (0 <= q)%Q /\ (q <= 59 # 10)%Q.
Proof.
  intros Hd Hf.
  apply small_digit_cases in Hd. apply digit_cases in Hf.
  repeat (destruct Hd as [Hd|Hd]); subst d;
    repeat (destruct Hf as [Hf|Hf]); subst f;
    (eexists; split; [vm_compute; reflexivity|]);
    split; unfold Qle; simpl; lia.
Qed.

End Rating.

(** C2, as the code has it.  The rating of an accepted record is never
    empty.  It is the trimmed text of the rating element, taken as it is,
    or else the leading pattern of the card's text: a digit from 0 to 5, a
    period and one digit, a value in [0.0, 5.9]. *)
Theorem accepted_rating (card : Element) (r : Review) :
  parseReviewCard card = Some r ->
  exists s,
    rating r = Some s /\ s <> []
    /\ ((exists e, ratingElement card = Some e /\ s = trim (innerText e))
        \/ (exists d f rest,
              innerText card = d :: 46%N :: f :: rest /\ s = [d; 46%N; f]
              /\ (48 <= d <= 53)%N /\ (48 <= f <= 57)%N
              /\ rating_in_range r (59 # 10))).
Proof.
  intros H. apply parseReviewCard_fields in H.
  destruct H as (_ & Hr & _ & _ & _ & _ & _ & _ & K).
  apply andb_true_iff in K as [K _].
  apply truthy_nonempty in K as [s [Hs Hne]].
  exists s. split; [exact Hs|]. split; [exact Hne|].
  assert (P : forall m, match0 rating_re (innerText card) = Some m -> s = m ->
              exists d f rest,
                innerText card = d :: 46%N :: f :: rest /\ s = [d; 46%N; f]
                /\ (48 <= d <= 53)%N /\ (48 <= f <= 57)%N
                /\ rating_in_range r (59 # 10)).
  { intros m Hm ->. destruct (rating_re_match _ _ Hm) as (d & f & rest & E & -> & Hd & Hf).
    exists d, f, rest. repeat (split; [assumption || reflexivity|]).
    unfold rating_in_range. rewrite Hs. now apply rating_pattern_value. }
  rewrite Hs in Hr. unfold findRating in Hr.
  destruct (ratingElement card) as [e|].
  - destruct (truthy (Some (trim (innerText e)))) eqn:T; simpl in Hr.
    + left. exists e. split; [reflexivity|]. congruence.
    + destruct (match0 rating_re (innerText card)) as [m|] eqn:Hm.
      * right. apply (P m); congruence.
      * injection Hr as ->. rewrite <- Hs in T.
        assert (X : truthy (rating r) = true)
          by (apply truthy_nonempty; eauto).
        rewrite Hs in X. congruence.
  - simpl in Hr. destruct (match0 rating_re (innerText card)) as [m|] eqn:Hm.
    + right. apply (P m); congruence.
    + discriminate.
Qed.

Lemma accepted_rating_witness :
  exists r s,
    parseReviewCard sample_card = Some r
    /\ rating r = Some s /\ s <> []
    /\ ((exists e, ratingElement sample_card = Some e /\ s = trim (innerText e))
        \/ (exists d f rest,
              innerText sample_card = d :: 46%N :: f :: rest /\ s = [d; 46%N; f]
              /\ (48 <= d <= 53)%N /\ (48 <= f <= 57)%N
              /\ rating_in_range r (59 # 10))).
Proof.
  eexists.
  assert (H : parseReviewCard sample_card = Some _) by (vm_compute; reflexivity).
  destruct (accepted_rating sample_card _ H) as [s Hs].
  exists s. split; [exact H|exact Hs].
Defined.

(** C2 as stated fails: a card whose text opens with "5.9" is accepted
    with the rating "5.9", above 5.0; and a rating element's text is kept
    whatever it says, here "N/A". *)
Lemma rating_above_five :
  (exists r, parseReviewCard high_rating_card = Some r
             /\ rating r = Some (u "5.9")
             /\ ~ rating_in_range r 5)
  /\ (exists r, parseReviewCard unrated_card = Some r
                /\ rating r = Some (u "N/A")
                /\ ~ rating_in_range r 5).
Proof.
  split.
  - eexists. split; [vm_compute; reflexivity|]. split; [reflexivity|].
    unfold rating_in_range; simpl rating.
    intros [q [Hq [_ Hle]]]. vm_compute in Hq. injection Hq as <-.
    revert Hle. unfold Qle; simpl. lia.
  - eexists. split; [vm_compute; reflexivity|]. split; [reflexivity|].
    unfold rating_in_range; simpl rating.
    intros [q [Hq _]]. vm_compute in Hq. discriminate.
Qed.

(** ** The fallback candidates *)

Section Candidates.

Lemma contains_prefix (a d : path) :
  contains a d = true <-> exists rest, d = a ++ rest.
Proof.
  revert d; induction a as [|i a IH]; intros d; simpl.
  - split; [intros _; now exists d|reflexivity].
  - destruct d as [|j d].
    + split; [discriminate|intros [rest E]; discriminate].
    + rewrite andb_true_iff, Nat.eqb_eq, IH. split.
      * intros [-> [rest ->]]. now exists rest.
      * intros [rest E]. injection E as -> ->. split; [reflexivity|now exists rest].
Qed.

Lemma same_node_eq (a d : path) : same_node a d = true <-> a = d.
Proof.
  unfold same_node. destruct (list_eq_dec Nat.eq_dec a d); split;
    congruence.
Qed.

Lemma contains_trans (a b c : path) :
  contains a b = true -> contains b c = true -> contains a c = true.
Proof.
  rewrite !contains_prefix. intros [r1 ->] [r2 ->].
  exists (r1 ++ r2). now rewrite app_assoc.
Qed.

Lemma contains_length (a d : path) :
  contains a d = true -> length a <= length d.
Proof.
  rewrite contains_prefix. intros [rest ->]. rewrite length_app. lia.
Qed.

Lemma contains_same_length (a d : path) :
  contains a d = true -> length a = length d -> a = d.
Proof.
  rewrite contains_prefix. intros [rest ->]. rewrite length_app.
  intros H. destruct rest; [now rewrite app_nil_r|simpl in H; lia].
Qed.

(** The candidates are the [div] elements of the document that name
    both sections in fewer than 2000 characters. *)
Lemma reviewDivs_spec (doc : Element) (d : Node) :
  In d (reviewDivs doc) <->
  In d (nodes doc) /\ localName (snd d) = u "div"
  /\ includes (innerText (snd d)) (u "Pros") = true
  /\ includes (innerText (snd d)) (u "Cons") = true
  /\ length (innerText (snd d)) < 2000.
Proof.
  unfold reviewDivs, querySelectorAll, isReviewDiv. rewrite !filter_In.
  simpl selects. unfold JsString.eqb, len.
  destruct (list_eq_dec N.eq_dec (localName (snd d)) (u "div")) as [E|E].
  - rewrite !andb_true_iff, Z.ltb_lt. intuition lia.
  - rewrite !andb_true_iff. intuition congruence.
Qed.

(** A candidate survives exactly when no other candidate contains it. *)
Lemma uniqueDivs_spec (doc : Element) (d : Node) :
  In d (uniqueDivs doc) <->
  In d (reviewDivs doc)
  /\ forall o, In o (reviewDivs doc) ->
               contains (fst o) (fst d) = true -> fst o = fst d.
Proof.
  unfold uniqueDivs. rewrite filter_In, negb_true_iff. split.
  - intros [Hd Hnone]; split; [exact Hd|]. intros o Ho Hc.
    destruct (list_eq_dec Nat.eq_dec (fst o) (fst d)) as [E|E]; [exact E|].
    exfalso. apply not_true_iff_false in Hnone. apply Hnone.
    apply existsb_exists. exists o. split; [exact Ho|].
    rewrite Hc, andb_true_r. apply negb_true_iff.
    apply not_true_iff_false. now rewrite same_node_eq.
  - intros [Hd Hall]; split; [exact Hd|].
    apply not_true_iff_false. intros Hex.
    apply existsb_exists in Hex as [o [Ho Hc]].
    apply andb_true_iff in Hc as [Hne Hc].
    apply negb_true_iff, not_true_iff_false in Hne.
    apply Hne, same_node_eq. now apply Hall.
Qed.

(** Every candidate lies in (or is) a candidate that survives. *)
Lemma outermost_survives (doc : Element) :
  forall n (d : Node),
    length (fst d) <= n -> In d (reviewDivs doc) ->
    exists top, In top (uniqueDivs doc)
                /\ contains (fst top) (fst d) = true.
Proof.
  induction n as [|n IH]; intros d Hlen Hd.
  - exists d. split.
    + apply uniqueDivs_spec. split; [exact Hd|]. intros o _ Hc.
      apply contains_same_length; [exact Hc|].
      apply contains_length in Hc. lia.
    + apply contains_prefix. exists []. now rewrite app_nil_r.
  - destruct (existsb (fun o => negb (same_node (fst o) (fst d))
                                && contains (fst o) (fst d))
                      (reviewDivs doc)) eqn:Hex.
    + apply existsb_exists in Hex as [o [Ho Hc]].
      apply andb_true_iff in Hc as [Hne Hc].
      apply negb_true_iff, not_true_iff_false in Hne.
      rewrite same_node_eq in Hne.
      assert (Hlt : length (fst o) <= n).
      { pose proof (contains_length _ _ Hc) as L.
        destruct (Nat.eq_dec (length (fst o)) (length (fst d))) as [E|E];
          [|lia].
        exfalso. apply Hne. now apply contains_same_length. }
      destruct (IH o Hlt Ho) as [top [Ht Hct]].
      exists top. split; [exact Ht|]. now apply contains_trans with (fst o).
    + exists d. split.
      * unfold uniqueDivs. apply filter_In. split; [exact Hd|].
        now rewrite Hex.
      * apply contains_prefix. exists []. now rewrite app_nil_r.
Qed.

End Candidates.

(** C8. When a candidate block lies inside another candidate block, both
    naming "Pros" and "Cons" in fewer than 2000 characters, the
    deduplicated set drops the nested block and keeps the outermost one:
    some surviving candidate contains both, and the outer block itself
    survives whenever no further candidate contains it. *)
Theorem nested_candidate_removed (doc : Element) (parent child : Node) :
  candidate doc parent -> candidate doc child ->
  below (fst parent) (fst child) ->
  ~ In child (uniqueDivs doc)
  /\ (exists top, In top (uniqueDivs doc)
                  /\ contains (fst top) (fst parent) = true
                  /\ contains (fst top) (fst child) = true)
  /\ ((forall o, candidate doc o -> below (fst o) (fst parent) -> False) ->
      In parent (uniqueDivs doc)).
Proof.
  intros Hp Hc [Hne Hpre].
  apply reviewDivs_spec in Hp, Hc. apply contains_prefix in Hpre.
  split; [|split].
  - intros Hu. apply uniqueDivs_spec in Hu as [_ Hall].
    apply Hne. now apply Hall.
  - destruct (outermost_survives doc (length (fst parent)) parent
                                 (Nat.le_refl _) Hp) as [top [Ht Hct]].
    exists top. split; [exact Ht|]. split; [exact Hct|].
    now apply contains_trans with (fst parent).
  - intros Hout. apply uniqueDivs_spec. split; [exact Hp|].
    intros o Ho Hco.
    destruct (list_eq_dec Nat.eq_dec (fst o) (fst parent)) as [E|E]; [exact E|].
    exfalso. apply (Hout o); [now apply reviewDivs_spec|].
    split; [exact E|]. now apply contains_prefix.
Qed.

Lemma nested_candidate_removed_witness :
  let parent := nth 1 (nodes nested_doc) ([], nested_doc) in
  let child := nth 2 (nodes nested_doc) ([], nested_doc) in
  fst parent = [0] /\ fst child = [0; 0]
  /\ map fst (uniqueDivs nested_doc) = [[0]]
  /\ ~ In child (uniqueDivs nested_doc)
  /\ (exists top, In top (uniqueDivs nested_doc)
                  /\ contains (fst top) (fst parent) = true
                  /\ contains (fst top) (fst child) = true)
  /\ In parent (uniqueDivs nested_doc).
Proof.
  intros parent child.
  split; [reflexivity|]. split; [reflexivity|]. split; [vm_compute; reflexivity|].
  assert (Hp : candidate nested_doc parent)
    by (apply reviewDivs_spec; vm_compute; left; reflexivity).
  assert (Hc : candidate nested_doc child)
    by (apply reviewDivs_spec; vm_compute; right; left; reflexivity).
  assert (Hb : below (fst parent) (fst child))
    by (split; [discriminate|exists [0]; reflexivity]).
  destruct (nested_candidate_removed nested_doc parent child Hp Hc Hb)
    as [Hgone [Htop Hkeep]].
  split; [exact Hgone|]. split; [exact Htop|].
  apply Hkeep. intros o [Hin [Htag _]] [Hne [rest E]].
  simpl in Hin.
  destruct Hin as [<-|[<-|[<-|[<-|[]]]]]; simpl in *;
    try discriminate; try (now apply Hne);
    destruct rest; discriminate.
Defined.

(** ** The page loop *)

Section PageLoop.

Variable company : jsstring.
Variable views : nat -> PageView.

Lemma breaks_halting (c : NextControl) :
  breaks (Seen c) = true <-> halting c.
Proof.
  unfold breaks, halting.
  destruct (Nat.eqb_spec (count c) 0) as [E|E].
  - split; [now left|reflexivity].
  - destruct (isVisible c); simpl.
    + destruct (isDisabled c); simpl.
      * split; [intros _; right; right; now left|reflexivity].
      * destruct (classAttr c) as [cls|].
        -- destruct (includes cls (u "disabled")) eqn:I; split;
             try reflexivity; try discriminate.
           ++ intros _. right; right; right. now exists cls.
           ++ intros [H|[H|[H|[x [Hx Hi]]]]]; try congruence.
        -- split; [vm_compute; discriminate|].
           intros [H|[H|[H|[x [Hx Hi]]]]]; congruence.
    + split; [intros _; right; now left|reflexivity].
Qed.

(** From iteration [i] with [n] iterations left: the loop begins at most
    [n] more iterations, none after one whose next control breaks, and
    only goes on past a control that does not. *)
Lemma pageLoop_run (n : nat) :
  forall i st,
    let r := pageLoop company views n i st in
    i <= pages r <= i + n
    /\ (forall j doc next, i <= j -> views j = Page doc next ->
        breaks next = true -> pages r <= S j)
    /\ (forall j, i <= j -> S j < pages r ->
        exists doc next, views j = Page doc next /\ breaks next = false)
    /\ (ending r = Exhausted -> pages r = i + n).
Proof.
  induction n as [|n IH]; intros i st; simpl.
  - split; [lia|]. split; [intros; lia|]. split; [intros; lia|]. lia.
  - destruct (views i) as [|doc next] eqn:V; simpl.
    + split; [lia|]. split; [intros; lia|].
      split; [intros; lia|discriminate].
    + destruct (match extractReviews doc with
                | [] => Returned st
                | _ :: _ => saveData st (map (review_json company) (extractReviews doc))
                end) as [st'|]; simpl.
      * destruct (breaks next) eqn:B; simpl.
        -- split; [lia|]. split; [intros; lia|].
           split; [intros; lia|discriminate].
        -- destruct (IH (S i) st') as [Hb [Hstop [Hlive Hex]]].
           split; [lia|]. split; [|split].
           ++ intros j d nx Hj Hv Hbr.
              destruct (Nat.eq_dec j i) as [->|Hne].
              ** rewrite V in Hv. injection Hv as <- <-. congruence.
              ** apply (Hstop j d nx); [lia|assumption|assumption].
           ++ intros j Hj Hlt.
              destruct (Nat.eq_dec j i) as [->|Hne].
              ** exists doc, next. now split.
              ** apply Hlive; [lia|assumption].
           ++ intros E. rewrite (Hex E). lia.
      * split; [lia|]. split; [intros; lia|].
        split; [intros; lia|discriminate].
Qed.

End PageLoop.

(** C7. The page loop of a company ends.  It begins at most 30 iterations
    ([MAX_PAGES_PER_COMPANY]); it begins none after an iteration in which
    the next control matched no element, was invisible or was disabled,
    by its state or by a class name containing "disabled"; and every
    iteration it goes on from saw a control that was none of these. *)
Theorem page_loop_terminates (company : jsstring) (views : nat -> PageView)
        (st : file) :
  let r := scrapePages company views st in
  pages r <= 30
  /\ (forall j doc c, views j = Page doc (Seen c) -> halting c -> pages r <= S j)
  /\ (forall j, S j < pages r ->
      exists doc c, views j = Page doc (Seen c) /\ ~ halting c).
Proof.
  unfold scrapePages.
  destruct (pageLoop_run company views MAX_PAGES_PER_COMPANY 0 st)
    as [Hb [Hstop [Hlive _]]].
  cbv zeta. split; [exact (proj2 Hb)|]. split.
  - intros j doc c Hv Hh. apply (Hstop j doc (Seen c)); [lia|exact Hv|].
    now apply breaks_halting.
  - intros j Hj. destruct (Hlive j ltac:(lia) Hj) as [doc [next [Hv Hbr]]].
    destruct next as [|c]; [discriminate|].
    exists doc, c. split; [exact Hv|]. intros Hh.
    apply breaks_halting in Hh. congruence.
Qed.

Lemma page_loop_terminates_witness :
  let r := scrapePages (u "Enbridge") three_pages None in
  pages r = 3
  /\ pages r <= 30
  /\ pages r <= 3
  /\ (exists doc c, three_pages 0 = Page doc (Seen c) /\ ~ halting c).
Proof.
  pose proof (page_loop_terminates (u "Enbridge") three_pages None) as H.
  cbv zeta in *. destruct H as [Hb [Hstop Hlive]].
  assert (E : pages (scrapePages (u "Enbridge") three_pages None) = 3)
    by (vm_compute; reflexivity).
  split; [exact E|]. split; [exact Hb|]. split.
  - apply (Hstop 2 listing_doc last_next); [reflexivity|].
    right; right; right. exists (u "nextButton disabled").
    split; vm_compute; reflexivity.
  - apply (Hlive 0). rewrite E. lia.
Defined.

(** ** JSON text: what is written is read back *)

Section JsonStrings.

Lemma hex_val_char (n : N) : (n < 16)%N -> hex_val (hex_char n) = Some n.
Proof.
  intros H. unfold hex_val, hex_char.
  destruct (N.ltb_spec n 10).
  - replace ((48 <=? 48 + n) && (48 + n <=? 57))%N with true
      by (symmetry; apply andb_true_iff; split; apply N.leb_le; lia).
    f_equal; lia.
  - replace ((48 <=? 87 + n) && (87 + n <=? 57))%N with false
      by (symmetry; apply andb_false_iff; right; apply N.leb_gt; lia).
    replace ((97 <=? 87 + n) && (87 + n <=? 102))%N with true
      by (symmetry; apply andb_true_iff; split; apply N.leb_le; lia).
    f_equal; lia.
Qed.

Lemma hex4_digits (c : N) :
  (c < 65536)%N ->
  hex4 (hex_char ((c / 4096) mod 16)) (hex_char ((c / 256) mod 16))
       (hex_char ((c / 16) mod 16)) (hex_char (c mod 16)) = Some c.
Proof.
  intros H. unfold hex4.
  rewrite !hex_val_char by (apply N.mod_lt; discriminate).
  f_equal.
  assert (D1 : (c / 16 / 16 = c / 256)%N) by now rewrite N.Div0.div_div.
  assert (D2 : (c / 256 / 16 = c / 4096)%N) by now rewrite N.Div0.div_div.
  pose proof (N.div_mod c 16 ltac:(discriminate)) as E1.
  pose proof (N.div_mod (c / 16) 16 ltac:(discriminate)) as E2.
  pose proof (N.div_mod (c / 256) 16 ltac:(discriminate)) as E3.
  rewrite D1 in E2. rewrite D2 in E3.
  assert (E4 : (c / 4096 < 16)%N)
    by (apply N.Div0.div_lt_upper_bound; simpl; lia).
  rewrite (N.mod_small (c / 4096) 16) by exact E4.
  lia.
Qed.

(** Reading an escaped unit gives the unit back. *)
Lemma string_body_unit (c : N) (t : jsstring) :
  string_body (quote_unit c ++ t) = prepend c (string_body t).
Proof.
  unfold quote_unit.
  destruct (N.eqb_spec c 34) as [->|H34]; [reflexivity|].
  destruct (N.eqb_spec c 92) as [->|H92]; [reflexivity|].
  destruct (N.eqb_spec c 8) as [->|H8]; [reflexivity|].
  destruct (N.eqb_spec c 12) as [->|H12]; [reflexivity|].
  destruct (N.eqb_spec c 10) as [->|H10]; [reflexivity|].
  destruct (N.eqb_spec c 13) as [->|H13]; [reflexivity|].
  destruct (N.eqb_spec c 9) as [->|H9]; [reflexivity|].
  destruct ((c <? 32)%N || is_high c || is_low c) eqn:E.
  - assert (Hc : (c < 65536)%N).
    { apply orb_true_iff in E as [E|E]; [apply orb_true_iff in E as [E|E]|].
      - apply N.ltb_lt in E; lia.
      - unfold is_high in E. apply andb_true_iff in E as [_ E].
        apply N.leb_le in E; lia.
      - unfold is_low in E. apply andb_true_iff in E as [_ E].
        apply N.leb_le in E; lia. }
    unfold unicode_escape. cbn [app string_body N.eqb Pos.eqb].
    now rewrite hex4_digits.
  - apply orb_false_iff in E as [E _]. apply orb_false_iff in E as [E _].
    cbn [app string_body].
    rewrite (proj2 (N.eqb_neq c 34) H34), (proj2 (N.eqb_neq c 92) H92), E.
    reflexivity.
Qed.

Lemma string_body_high (c : N) (t : jsstring) :
  is_high c = true -> string_body (c :: t) = prepend c (string_body t).
Proof.
  intros H. unfold is_high in H. apply andb_true_iff in H as [H _].
  apply N.leb_le in H. cbn [string_body].
  replace (c =? 34)%N with false by (symmetry; apply N.eqb_neq; lia).
  replace (c =? 92)%N with false by (symmetry; apply N.eqb_neq; lia).
  replace (c <? 32)%N with false by (symmetry; apply N.ltb_ge; lia).
  reflexivity.
Qed.

Lemma string_body_low (c : N) (t : jsstring) :
  is_low c = true -> string_body (c :: t) = prepend c (string_body t).
Proof.
  intros H. unfold is_low in H. apply andb_true_iff in H as [H _].
  apply N.leb_le in H. cbn [string_body].
  replace (c =? 34)%N with false by (symmetry; apply N.eqb_neq; lia).
  replace (c =? 92)%N with false by (symmetry; apply N.eqb_neq; lia).
  replace (c <? 32)%N with false by (symmetry; apply N.ltb_ge; lia).
  reflexivity.
Qed.

(** A quoted string reads back as the string. *)
Lemma string_body_quote (s rest : jsstring) :
  string_body (quote_body s ++ 34%N :: rest) = Some (s, rest).
Proof.
  enough (H : string_body (quote_body s ++ 34%N :: rest) = Some (s, rest)
              /\ forall c, string_body (quote_body (c :: s) ++ 34%N :: rest)
                           = Some (c :: s, rest)) by apply H.
  induction s as [|d s [IH1 IH2]].
  - split; [reflexivity|]. intros c. cbn [quote_body].
    destruct (is_high c); [|rewrite app_nil_r];
      rewrite string_body_unit; reflexivity.
  - split; [apply IH2|]. intros c.
    change (quote_body (c :: d :: s))
      with (if is_high c
            then if is_low d then c :: d :: quote_body s
                 else quote_unit c ++ quote_body (d :: s)
            else quote_unit c ++ quote_body (d :: s)).
    destruct (is_high c) eqn:Hc; [destruct (is_low d) eqn:Hd|].
    + cbn [app]. rewrite (string_body_high _ _ Hc), (string_body_low _ _ Hd).
      now rewrite IH1.
    + rewrite <- app_assoc, string_body_unit. now rewrite IH2.
    + rewrite <- app_assoc, string_body_unit. now rewrite IH2.
Qed.

End JsonStrings.

Section JsonValues.

Lemma skip_ws_spaces (n : nat) (s : jsstring) :
  skip_ws (spaces n ++ s) = skip_ws s.
Proof. induction n as [|n IH]; [reflexivity|exact IH]. Qed.

Lemma skip_ws_newline (n : nat) (s : jsstring) :
  skip_ws (newline n ++ s) = skip_ws s.
Proof. unfold newline. cbn [app skip_ws is_ws N.eqb orb]. apply skip_ws_spaces. Qed.

Lemma skip_ws_head (c : N) (s : jsstring) :
  is_ws c = false -> skip_ws (c :: s) = c :: s.
Proof. intros H. cbn [skip_ws]. now rewrite H. Qed.

(** The parser looks at its input after the leading white space only. *)
Lemma parse_value_ws (fuel : nat) (a b : jsstring) :
  skip_ws a = skip_ws b -> parse_value fuel a = parse_value fuel b.
Proof. intros H. destruct fuel; [reflexivity|]. cbn [parse_value]. now rewrite H. Qed.

Lemma length_newline (n : nat) : length (newline n) = S n.
Proof. unfold newline, spaces. cbn [length]. now rewrite repeat_length. Qed.

(** The text of a plain value opens with a character that is neither
    white space nor a closing bracket. *)
Lemma serialize_head (ind : nat) (v : json) :
  plain v ->
  exists c t, serialize ind v = c :: t
              /\ is_ws c = false /\ c <> 93%N /\ c <> 125%N.
Proof.
  destruct v as [|[|]|x|s|[|x items]|[|[k x] ms]]; cbn [plain serialize];
    intros H; try contradiction;
    eexists; eexists; (split; [reflexivity|]);
    (split; [reflexivity|split; discriminate]).
Qed.

Lemma obj_set_fresh (k : jsstring) (x : json) (acc : list (jsstring * json)) :
  ~ In k (map fst acc) -> array_index k = None ->
  obj_set k x acc = acc ++ [(k, x)].
Proof.
  intros Hk Hi. unfold obj_set. rewrite Hi.
  replace (has_key k acc) with false; [reflexivity|].
  symmetry. unfold has_key. apply not_true_iff_false. intros H.
  apply existsb_exists in H as [m [Hm E]]. apply Hk.
  unfold JsString.eqb in E.
  destruct (list_eq_dec N.eq_dec (fst m) k) as [<-|]; [|discriminate].
  now apply in_map.
Qed.


Lemma parse_elements_join (ind k : nat) (rest : jsstring) :
  forall items x acc fuel,
    Forall reads_back (x :: items) ->
    let text :=
      newline ind
        ++ join (44%N :: newline ind) (map (serialize ind) (x :: items))
        ++ newline k ++ 93%N :: rest in
    2 * length text + 1 < fuel ->
    parse_elements fuel acc text = Ok (JArr (rev acc ++ x :: items)) rest.
Proof.
  induction items as [|y items IH]; intros x acc fuel Hall text Hfuel;
    subst text; (destruct fuel as [|f]; [lia|]);
    inversion Hall as [|? ? Hx Hitems]; subst;
    cbn [parse_elements map join flat_map] in *.
  - rewrite app_nil_r in *.
    rewrite (parse_value_ws f _ (serialize ind x ++ newline k ++ 93%N :: rest))
      by (rewrite skip_ws_newline, <- ?app_assoc; reflexivity).
    rewrite Hx.
    + rewrite skip_ws_newline. cbn [skip_ws is_ws N.eqb Pos.eqb orb rev].
      reflexivity.
    + rewrite !length_app, length_newline in Hfuel.
      rewrite !length_app. lia.
  - set (tail := flat_map (fun q => (44%N :: newline ind) ++ q)
                          (map (serialize ind) items) ++ newline k ++ 93%N :: rest).
    assert (E : newline ind
                  ++ (serialize ind x
                        ++ ((44%N :: newline ind) ++ serialize ind y)
                        ++ flat_map (fun q => (44%N :: newline ind) ++ q)
                                    (map (serialize ind) items))
                  ++ newline k ++ 93%N :: rest
                = newline ind ++ serialize ind x
                    ++ 44%N :: newline ind ++ serialize ind y ++ tail).
    { unfold tail. repeat (rewrite <- app_assoc; cbn [app]). reflexivity. }
    rewrite E in *. clear E.
    rewrite (parse_value_ws f _ (serialize ind x ++ 44%N :: newline ind
                                    ++ serialize ind y ++ tail))
      by (rewrite skip_ws_newline; reflexivity).
    rewrite !length_app, length_newline in Hfuel. cbn [length] in Hfuel.
    rewrite !length_app, length_newline in Hfuel.
    rewrite Hx.
    + cbn [skip_ws is_ws N.eqb Pos.eqb orb].
      specialize (IH y (x :: acc) f Hitems).
      cbn [map join] in IH. cbv zeta in IH.
      replace (rev acc ++ x :: y :: items) with (rev (x :: acc) ++ y :: items)
        by (cbn [rev]; rewrite <- app_assoc; reflexivity).
      rewrite <- IH.
      * unfold tail. rewrite <- !app_assoc. reflexivity.
      * unfold tail in Hfuel. rewrite !length_app, ?length_newline in *.
        cbn [length] in *. rewrite ?length_app, ?length_newline in *. lia.
    + rewrite !length_app. cbn [length]. rewrite !length_app, length_newline. lia.
Qed.

End JsonValues.

Section JsonObjects.


Lemma member_text_eq (ind : nat) (k : jsstring) (x : json) (tail : jsstring) :
  member_text ind (k, x) ++ tail
  = 34%N :: quote_body k ++ 34%N :: 58%N :: 32%N :: serialize ind x ++ tail.
Proof.
  unfold member_text, quote. cbn [app u map list_ascii_of_string N_of_ascii].
  repeat (rewrite <- app_assoc; cbn [app]). reflexivity.
Qed.

Lemma length_member_text (ind : nat) (k : jsstring) (x : json) (tail : jsstring) :
  length (member_text ind (k, x) ++ tail)
  = 4 + length (quote_body k) + length (serialize ind x ++ tail).
Proof.
  rewrite member_text_eq. cbn [length]. rewrite length_app. cbn [length]. lia.
Qed.

Lemma parse_members_join (ind k : nat) (rest : jsstring) :
  forall ms m acc fuel,
    Forall (fun m => reads_back (snd m)) (m :: ms) ->
    NoDup (map fst (acc ++ m :: ms)) ->
    Forall (fun key => array_index key = None) (map fst (m :: ms)) ->
    let text :=
      newline ind
        ++ join (44%N :: newline ind) (map (member_text ind) (m :: ms))
        ++ newline k ++ 125%N :: rest in
    2 * length text + 1 < fuel ->
    parse_members fuel acc text = Ok (JObj (acc ++ m :: ms)) rest.
Proof.
  induction ms as [|m' ms IH]; intros [key x] acc fuel Hall Hnd Hidx text Hfuel;
    subst text; (destruct fuel as [|f]; [lia|]);
    inversion Hall as [|? ? Hx Hms]; subst;
    inversion Hidx as [|? ? Hkey Hkeys]; subst;
    assert (Hfresh : ~ In key (map fst acc))
      by (rewrite map_app in Hnd; apply NoDup_remove_2 in Hnd;
          intros Hin; apply Hnd, in_or_app; now left);
    cbn [map join flat_map snd] in *.
  - rewrite app_nil_r in *.
    rewrite member_text_eq in *.
    rewrite length_app, length_newline in Hfuel. cbn [length] in Hfuel.
    rewrite length_app in Hfuel. cbn [length] in Hfuel.
    cbn [parse_members]. rewrite skip_ws_newline.
    rewrite skip_ws_head by reflexivity.
    rewrite string_body_quote. rewrite skip_ws_head by reflexivity.
    rewrite (parse_value_ws f _ (serialize ind x ++ newline k ++ 125%N :: rest))
      by reflexivity.
    rewrite Hx by lia.
    rewrite skip_ws_newline. cbn [skip_ws is_ws N.eqb Pos.eqb orb].
    now rewrite obj_set_fresh.
  - set (tail := flat_map (fun q => (44%N :: newline ind) ++ q)
                          (map (member_text ind) ms) ++ newline k ++ 125%N :: rest).
    assert (E : newline ind
                  ++ (member_text ind (key, x)
                        ++ ((44%N :: newline ind) ++ member_text ind m')
                        ++ flat_map (fun q => (44%N :: newline ind) ++ q)
                                    (map (member_text ind) ms))
                  ++ newline k ++ 125%N :: rest
                = newline ind ++ member_text ind (key, x)
                    ++ 44%N :: newline ind ++ member_text ind m' ++ tail).
    { unfold tail. repeat (rewrite <- app_assoc; cbn [app]). reflexivity. }
    rewrite E in *. clear E.
    rewrite member_text_eq in *.
    rewrite length_app, length_newline in Hfuel. cbn [length] in Hfuel.
    rewrite length_app in Hfuel. cbn [length] in Hfuel.
    cbn [parse_members]. rewrite skip_ws_newline.
    rewrite skip_ws_head by reflexivity.
    rewrite string_body_quote. rewrite skip_ws_head by reflexivity.
    rewrite (parse_value_ws f _ (serialize ind x ++ 44%N :: newline ind
                                    ++ member_text ind m' ++ tail))
      by reflexivity.
    rewrite Hx by lia.
    cbn [skip_ws is_ws N.eqb Pos.eqb orb].
    rewrite obj_set_fresh by assumption.
    specialize (IH m' (acc ++ [(key, x)]) f Hms).
    cbn [map join] in IH. cbv zeta in IH.
    replace (acc ++ (key, x) :: m' :: ms) with ((acc ++ [(key, x)]) ++ m' :: ms)
      by (rewrite <- app_assoc; reflexivity).
    rewrite <- IH.
    + unfold tail. repeat (rewrite <- app_assoc; cbn [app]). reflexivity.
    + rewrite <- app_assoc. exact Hnd.
    + exact Hkeys.
    + rewrite length_app in Hfuel. cbn [length] in Hfuel.
      rewrite length_app, length_newline in Hfuel. unfold tail in Hfuel.
      rewrite !length_app, ?length_newline. cbn [length].
      rewrite !length_app in Hfuel. cbn [length] in Hfuel.
      rewrite ?length_app, ?length_newline in *. cbn [length] in *. lia.
Qed.

End JsonObjects.

Section JsonRoundTrip.

Lemma not_bracket {A : Type} (c : N) (l : jsstring) (a : jsstring -> A) (b : A) :
  c <> 93%N ->
  match c :: l with 93%N :: r => a r | _ => b end = b.
Proof.
  intros H. by_code_unit c ltac:(first [reflexivity | contradiction]).
Qed.

Lemma plain_items (items : list json) :
  fold_right (fun x acc => plain x /\ acc) True items <-> Forall plain items.
Proof.
  induction items as [|x items IH]; cbn [fold_right].
  - split; constructor.
  - rewrite IH. split.
    + intros [H1 H2]; now constructor.
    + intros H; inversion H; now split.
Qed.

Lemma plain_members (ms : list (jsstring * json)) :
  fold_right (fun m acc => plain (snd m) /\ acc) True ms
  <-> Forall (fun m => plain (snd m)) ms.
Proof.
  induction ms as [|m ms IH]; cbn [fold_right].
  - split; constructor.
  - rewrite IH. split.
    + intros [H1 H2]; now constructor.
    + intros H; inversion H; now split.
Qed.

Lemma Forall_modus {A : Type} (P Q : A -> Prop) (l : list A) :
  Forall (fun x => P x -> Q x) l -> Forall P l -> Forall Q l.
Proof.
  induction 1 as [|x l H _ IH]; intros HP; inversion HP; subst;
    constructor; auto.
Qed.

(** The text of a plain value, at any indentation and before any
    continuation, is parsed to the value. *)
Theorem plain_reads_back (v : json) : plain v -> reads_back v.
Proof.
  induction v as [ | b | x | s | items IH | ms IH ] using json_nested_ind;
    intros Hp ind rest fuel Hfuel;
    (destruct fuel as [|f]; [lia|]).
  - reflexivity.
  - destruct b; reflexivity.
  - contradiction.
  - cbn [serialize]. unfold quote. cbn [app parse_value skip_ws is_ws].
    rewrite <- app_assoc. cbn [app].
    destruct (is_ws 34) eqn:E; [discriminate|]. clear E.
    cbn [N.eqb Pos.eqb]. now rewrite string_body_quote.
  - destruct items as [|x items]; [reflexivity|].
    cbn [plain] in Hp. apply plain_items in Hp.
    pose proof (Forall_modus _ _ _ IH Hp) as Hall.
    inversion Hp as [|? ? Hpx _]; subst.
    destruct (serialize_head (ind + 2) x Hpx) as (c & t & Ec & Hws & Hc & _).
    assert (E : serialize ind (JArr (x :: items)) ++ rest
                = 91%N :: (newline (ind + 2)
                    ++ join (44%N :: newline (ind + 2))
                            (map (serialize (ind + 2)) (x :: items))
                    ++ newline ind ++ 93%N :: rest)).
    { cbn [serialize]. cbn [u map list_ascii_of_string N_of_ascii app].
      repeat (rewrite <- app_assoc; cbn [app]). reflexivity. }
    rewrite E in *. clear E.
    set (text := newline (ind + 2) ++ _) in *.
    assert (Hs : exists l, skip_ws text = c :: l).
    { unfold text. rewrite skip_ws_newline. cbn [map join].
      rewrite Ec. cbn [app]. rewrite (skip_ws_head _ _ Hws).
      eexists; reflexivity. }
    destruct Hs as [l Hs].
    cbn [parse_value]. rewrite skip_ws_head by reflexivity.
    cbn [N.eqb Pos.eqb]. rewrite Hs, (not_bracket _ _ _ _ Hc).
    apply (parse_elements_join (ind + 2) ind rest items x [] f Hall).
    cbn [length] in Hfuel. fold text. lia.
  - destruct ms as [|[key x] ms]; [reflexivity|].
    cbn [plain] in Hp. destruct Hp as (Hnd & Hidx & Hp).
    apply plain_members in Hp.
    pose proof (Forall_modus _ _ _ IH Hp) as Hall.
    assert (E : serialize ind (JObj ((key, x) :: ms)) ++ rest
                = 123%N :: (newline (ind + 2)
                    ++ join (44%N :: newline (ind + 2))
                            (map (member_text (ind + 2)) ((key, x) :: ms))
                    ++ newline ind ++ 125%N :: rest)).
    { cbn [serialize]. cbn [u map list_ascii_of_string N_of_ascii app].
      repeat (rewrite <- app_assoc; cbn [app]). reflexivity. }
    rewrite E in *. clear E.
    set (text := newline (ind + 2) ++ _) in *.
    assert (Hs : exists l, skip_ws text = 34%N :: l).
    { unfold text. rewrite skip_ws_newline. cbn [map join].
      rewrite <- app_assoc, member_text_eq.
      rewrite skip_ws_head by reflexivity. eexists; reflexivity. }
    destruct Hs as [l Hs].
    cbn [parse_value]. rewrite skip_ws_head by reflexivity.
    cbn [N.eqb Pos.eqb]. rewrite Hs.
    cbv match.
    apply (parse_members_join (ind + 2) ind rest ms (key, x) [] f Hall Hnd Hidx).
    cbn [length] in Hfuel. fold text. lia.
Qed.

(** [JSON.parse(JSON.stringify(v, null, 2))] is [v]. *)
Theorem parse_stringify (v : json) : plain v -> parse (stringify v) = Some v.
Proof.
  intros Hp. unfold parse, stringify, fuel_for.
  pose proof (plain_reads_back v Hp 0 [] (S (2 * length (serialize 0 v)))) as H.
  rewrite app_nil_r in H. rewrite H by lia. reflexivity.
Qed.

End JsonRoundTrip.

(** ** JSON text: the parser's fuel *)

Section JsonFuel.

Lemma skip_ws_length (s : jsstring) : length (skip_ws s) <= length s.
Proof.
  induction s as [|c s IH]; [reflexivity|]. cbn [skip_ws].
  destruct (is_ws c); cbn [length]; lia.
Qed.

Lemma skip_ws_cons (s t : jsstring) (c : N) :
  skip_ws s = c :: t -> length t < length s.
Proof.
  intros H. pose proof (skip_ws_length s) as L. rewrite H in L.
  cbn [length] in L. lia.
Qed.

Lemma prepend_rest (c : N) (o : option (jsstring * jsstring)) (x r : jsstring) :
  prepend c o = Some (x, r) -> exists x', o = Some (x', r).
Proof.
  destruct o as [[x' r']|]; cbn [prepend]; [|discriminate].
  intros E; injection E as <- <-. now exists x'.
Qed.

Lemma string_body_length (s x r : jsstring) :
  string_body s = Some (x, r) -> length r < length s.
Proof.
  remember (length s) as n eqn:Hn. revert s x r Hn.
  induction n as [n IH] using lt_wf_ind; intros s x r -> H.
  destruct s as [|c s]; [discriminate|]. cbn [string_body] in H.
  destruct (c =? 34)%N.
  - injection H as <- <-. cbn [length]. lia.
  - destruct (c =? 92)%N.
    + destruct s as [|e s]; [discriminate|].
      destruct (e =? 117)%N.
      * destruct s as [|a [|b [|c' [|d s]]]]; try discriminate.
        destruct (hex4 a b c' d); [|discriminate].
        apply prepend_rest in H as [x' H].
        apply (IH (length s)) in H; cbn [length] in *; lia.
      * destruct (unescape e); [|discriminate].
        apply prepend_rest in H as [x' H].
        apply (IH (length s)) in H; cbn [length] in *; lia.
    + destruct (c <? 32)%N; [discriminate|].
      apply prepend_rest in H as [x' H].
      apply (IH (length s)) in H; cbn [length] in *; lia.
Qed.

Lemma digits_length (s : jsstring) : length (snd (digits s)) <= length s.
Proof.
  induction s as [|c s IH]; [reflexivity|]. cbn [digits].
  destruct (digit c); [|reflexivity].
  destruct (digits s) as [d r]. cbn [snd length] in *. lia.
Qed.

Lemma number_length (s x r : jsstring) :
  number s = Some (x, r) -> length r <= length s.
Proof.
  unfold number. intros H.
  repeat match type of H with
         | context [digits ?t] =>
             let L := fresh "L" in
             pose proof (digits_length t) as L;
             destruct (digits t) as [? ?]; cbn [snd] in L
         | context [match ?l with [] => _ | _ :: _ => _ end] =>
             destruct l; cbn [length] in *
         | context [if ?b then _ else _] => destruct b
         | (let (_, _) := ?p in _) = _ => destruct p
         | _ => discriminate
         end;
    try (injection H as <- <-); cbn [length] in *; try lia.
Qed.

End JsonFuel.

Section JsonTotal.


Lemma settles_error (s : jsstring) : settles SyntaxError s.
Proof. split; [discriminate|]. intros v r H; discriminate. Qed.

Lemma settles_ok (v : json) (r s : jsstring) :
  length r <= length s -> settles (Ok v r) s.
Proof.
  intros L; split; [discriminate|]. intros v' r' H; injection H as <- <-; exact L.
Qed.

Lemma settles_shorter (res : parsed json) (t s : jsstring) :
  settles res t -> length t <= length s -> settles res s.
Proof.
  intros [H1 H2] L; split; [exact H1|]. intros v r E.
  specialize (H2 v r E). lia.
Qed.

Lemma parse_settles (fuel : nat) :
  (forall s, 2 * length s < fuel -> settles (parse_value fuel s) s)
  /\ (forall acc s, 2 * length s + 1 < fuel ->
      settles (parse_elements fuel acc s) s)
  /\ (forall acc s, 2 * length s + 1 < fuel ->
      settles (parse_members fuel acc s) s).
Proof.
  induction fuel as [|f (IHv & IHe & IHm)].
  - repeat split; intros; lia.
  - split; [|split].
    + intros s Hf. cbn [parse_value].
      destruct (skip_ws s) as [|c t] eqn:Es; [apply settles_error|].
      pose proof (skip_ws_cons _ _ _ Es) as Lt.
      destruct (c =? 91)%N.
      { destruct (skip_ws t) as [|c' r] eqn:Et.
        - apply settles_shorter with t; [apply IHe|]; lia.
        - pose proof (skip_ws_cons _ _ _ Et) as Lr.
          assert (X : settles (parse_elements f [] t) s)
            by (apply settles_shorter with t; [apply IHe|]; lia).
          by_code_unit c' ltac:(first [exact X | apply settles_ok; lia]). }
      destruct (c =? 123)%N.
      { destruct (skip_ws t) as [|c' r] eqn:Et.
        - apply settles_shorter with t; [apply IHm|]; lia.
        - pose proof (skip_ws_cons _ _ _ Et) as Lr.
          assert (X : settles (parse_members f [] t) s)
            by (apply settles_shorter with t; [apply IHm|]; lia).
          by_code_unit c' ltac:(first [exact X | apply settles_ok; lia]). }
      destruct (c =? 34)%N.
      { destruct (string_body t) as [[x r]|] eqn:Eb; [|apply settles_error].
        apply string_body_length in Eb. apply settles_ok; lia. }
      destruct (starts (u "null") (c :: t)).
      { apply settles_ok. rewrite length_skipn. cbn [length]. lia. }
      destruct (starts (u "true") (c :: t)).
      { apply settles_ok. rewrite length_skipn. cbn [length]. lia. }
      destruct (starts (u "false") (c :: t)).
      { apply settles_ok. rewrite length_skipn. cbn [length]. lia. }
      destruct (number (c :: t)) as [[x r]|] eqn:En; [|apply settles_error].
      apply number_length in En. cbn [length] in En. apply settles_ok; lia.
    + intros acc s Hf. cbn [parse_elements].
      destruct (IHv s ltac:(lia)) as [Hv Hr].
      destruct (parse_value f s) as [v r| |] eqn:Ev;
        [|apply settles_error|contradiction].
      specialize (Hr v r eq_refl).
      destruct (skip_ws r) as [|c r'] eqn:Er; [apply settles_error|].
      pose proof (skip_ws_cons _ _ _ Er) as Lr.
      assert (X : settles (parse_elements f (v :: acc) r') s)
        by (apply settles_shorter with r'; [apply IHe|]; lia).
      assert (Y : settles (Ok (JArr (rev (v :: acc))) r') s)
        by (apply settles_ok; lia).
      by_code_unit c ltac:(first [apply settles_error | exact X | exact Y]).
    + intros acc s Hf. cbn [parse_members].
      destruct (skip_ws s) as [|c t] eqn:Es; [apply settles_error|].
      pose proof (skip_ws_cons _ _ _ Es) as Lt.
      assert (G : forall res, (c = 34%N -> settles res s) ->
                  settles (match c with 34%N => res | _ => SyntaxError end) s).
      { intros res Hres.
        by_code_unit c ltac:(first [apply settles_error | now apply Hres]). }
      apply G. intros _. clear G.
      destruct (string_body t) as [[k r]|] eqn:Eb; [|apply settles_error].
      apply string_body_length in Eb.
      destruct (skip_ws r) as [|c1 r1] eqn:Er; [apply settles_error|].
      pose proof (skip_ws_cons _ _ _ Er) as Lr.
      assert (G : forall res, (c1 = 58%N -> settles res s) ->
                  settles (match c1 with 58%N => res | _ => SyntaxError end) s).
      { intros res Hres.
        by_code_unit c1 ltac:(first [apply settles_error | now apply Hres]). }
      apply G. intros _. clear G.
      destruct (IHv r1 ltac:(lia)) as [Hv Hr].
      destruct (parse_value f r1) as [v r2| |] eqn:Ev;
        [|apply settles_error|contradiction].
      specialize (Hr v r2 eq_refl).
      destruct (skip_ws r2) as [|c3 r3] eqn:E3; [apply settles_error|].
      pose proof (skip_ws_cons _ _ _ E3) as L3.
      assert (X : settles (parse_members f (obj_set k v acc) r3) s)
        by (apply settles_shorter with r3; [apply IHm|]; lia).
      assert (Y : settles (Ok (JObj (obj_set k v acc)) r3) s)
        by (apply settles_ok; lia).
      by_code_unit c3 ltac:(first [apply settles_error | exact X | exact Y]).
Qed.

(** [parse] never runs out of fuel: when it gives [None], the text is not
    JSON. *)
Theorem parse_has_fuel (s : jsstring) :
  parse_value (fuel_for s) s <> OutOfFuel.
Proof.
  apply (proj1 (parse_settles (fuel_for s))). unfold fuel_for. lia.
Qed.

(** So [parse] gives [None] only for a text that is not JSON: the parser
    rejects it, or something other than white space follows the value. *)
Lemma parse_none (s : jsstring) :
  parse s = None ->
  parse_value (fuel_for s) s = SyntaxError
  \/ exists v r c t, parse_value (fuel_for s) s = Ok v r /\ skip_ws r = c :: t.
Proof.
  unfold parse. pose proof (parse_has_fuel s) as F.
  destruct (parse_value (fuel_for s) s) as [v r| |]; [|now left|contradiction].
  destruct (skip_ws r) as [|c t] eqn:E; [discriminate|].
  intros _. right. now exists v, r, c, t.
Qed.

End JsonTotal.

(** ** The store *)

Section StoreFacts.

Lemma nullable_plain (v : option jsstring) : plain (nullable v).
Proof. destruct v; exact I. Qed.

(** A review record is a plain value: eight distinct keys, strings and
    nulls. *)
Lemma review_json_plain (company : jsstring) (r : Review) :
  plain (review_json company r).
Proof.
  unfold review_json. cbn [plain map fst snd fold_right].
  split; [|split].
  - repeat constructor; cbn [In]; intros H;
      repeat (destruct H as [H|H]; [discriminate H|]); exact H.
  - repeat constructor.
  - repeat split; apply nullable_plain.
Qed.

Lemma reviews_plain (company : jsstring) (rs : list Review) :
  Forall plain (map (review_json company) rs).
Proof.
  induction rs; constructor; [apply review_json_plain|assumption].
Qed.

(** A store written from plain values holds exactly these values. *)
Lemma stored_stringify (l : list json) :
  Forall plain l -> stored (Some (stringify (JArr l))) = Some l.
Proof.
  intros H. unfold stored. rewrite parse_stringify; [reflexivity|].
  cbn [plain]. now apply plain_items.
Qed.

(** [saveData] on a store that holds an array appends the batch. *)
Lemma saveData_appends (f : file) (old batch : list json) :
  stored f = Some old ->
  saveData f batch = Returned (Some (stringify (JArr (old ++ batch)))).
Proof.
  unfold stored, saveData. destruct f as [content|]; [|discriminate].
  destruct (parse content) as [[| | | |l|]|]; try discriminate.
  intros E; injection E as ->. reflexivity.
Qed.

(** [saveData] on an absent store writes the batch. *)
Lemma saveData_creates (batch : list json) :
  saveData None batch = Returned (Some (stringify (JArr batch))).
Proof. reflexivity. Qed.

(** Any number of batches, appended in turn to a store that holds an
    array, leave the array followed by the batches in their order. *)
Lemma saveAll_appends (batches : list (list json)) :
  Forall (Forall plain) batches ->
  forall f old,
    stored f = Some old -> Forall plain old ->
    exists f', saveAll f batches = Returned f'
               /\ stored f' = Some (old ++ concat batches).
Proof.
  induction 1 as [|b batches Hb _ IH]; intros f old Hf Hold; cbn [saveAll concat].
  - exists f. now rewrite app_nil_r.
  - rewrite (saveData_appends f old b Hf).
    assert (Hall : Forall plain (old ++ b)) by (apply Forall_app; now split).
    destruct (IH _ _ (stored_stringify _ Hall) Hall) as [f' [Hf' Hs]].
    exists f'. split; [exact Hf'|]. now rewrite app_assoc.
Qed.

(** The same from an absent store: the first batch creates it. *)
Lemma saveAll_creates (b : list json) (batches : list (list json)) :
  Forall (Forall plain) (b :: batches) ->
  exists f', saveAll None (b :: batches) = Returned f'
             /\ stored f' = Some (concat (b :: batches)).
Proof.
  intros H. inversion H as [|? ? Hb Hbs]; subst.
  cbn [saveAll concat]. rewrite saveData_creates.
  exact (saveAll_appends batches Hbs _ _ (stored_stringify _ Hb) Hb).
Qed.

End StoreFacts.

(** C3. Starting from an absent store, [saveData] with a batch of N
    records and then with a batch of M records returns both times and
    leaves a store that holds exactly N + M records: the records of the
    first batch, in their order, followed by those of the second, in
    theirs. *)
Theorem saveData_two_batches (c1 c2 : jsstring) (rs1 rs2 : list Review) :
  exists f1 f2 l,
    saveData None (map (review_json c1) rs1) = Returned f1
    /\ saveData f1 (map (review_json c2) rs2) = Returned f2
    /\ stored f2 = Some l
    /\ l = map (review_json c1) rs1 ++ map (review_json c2) rs2
    /\ length l = length rs1 + length rs2
    /\ firstn (length rs1) l = map (review_json c1) rs1
    /\ skipn (length rs1) l = map (review_json c2) rs2.
Proof.
  set (b1 := map (review_json c1) rs1). set (b2 := map (review_json c2) rs2).
  assert (H1 : Forall plain b1) by apply reviews_plain.
  assert (H2 : Forall plain b2) by apply reviews_plain.
  assert (L1 : length b1 = length rs1) by apply length_map.
  exists (Some (stringify (JArr b1))), (Some (stringify (JArr (b1 ++ b2)))),
    (b1 ++ b2).
  split; [reflexivity|]. split.
  - apply saveData_appends. now apply stored_stringify.
  - split; [apply stored_stringify, Forall_app; now split|].
    split; [reflexivity|]. split; [|split].
    + rewrite length_app. unfold b1, b2. now rewrite !length_map.
    + rewrite <- L1. rewrite firstn_app, Nat.sub_diag, firstn_all.
      cbn [firstn]. now rewrite app_nil_r.
    + rewrite <- L1. rewrite skipn_app, Nat.sub_diag, skipn_all.
      reflexivity.
Qed.

(** C10. When the store file exists but its text is not JSON, [saveData]
    returns, having written a store that holds the new batch only: the
    call behaves as on an absent store, whatever the file held is gone and
    nothing is thrown. *)
Theorem saveData_unparsable (content company : jsstring) (rs : list Review) :
  parse content = None ->
  exists f',
    saveData (Some content) (map (review_json company) rs) = Returned f'
    /\ saveData None (map (review_json company) rs) = Returned f'
    /\ f' = Some (stringify (JArr (map (review_json company) rs)))
    /\ stored f' = Some (map (review_json company) rs).
Proof.
  intros H. exists (Some (stringify (JArr (map (review_json company) rs)))).
  split; [unfold saveData; now rewrite H|]. split; [reflexivity|].
  split; [reflexivity|]. apply stored_stringify, reviews_plain.
Qed.

Lemma saveData_unparsable_witness :
  parse truncated_store = None
  /\ exists f',
      saveData (Some truncated_store) (map (review_json (u "Suncor Energy")) [sample_review])
      = Returned f'
      /\ saveData None (map (review_json (u "Suncor Energy")) [sample_review])
         = Returned f'
      /\ f' = Some (stringify (JArr (map (review_json (u "Suncor Energy")) [sample_review])))
      /\ stored f' = Some (map (review_json (u "Suncor Energy")) [sample_review]).
Proof.
  assert (H : parse truncated_store = None) by (vm_compute; reflexivity).
  split; [exact H|].
  exact (saveData_unparsable truncated_store (u "Suncor Energy") [sample_review] H).
Defined.

(** ** Regular expressions *)

Section RegExpFacts.

Lemma Forall_prefix {A : Type} (P : A -> Prop) (n : nat) (l : list A) :
  Forall P l -> Forall P (firstn n l).
Proof.
  revert l; induction n as [|n IH]; intros l H; [constructor|].
  destruct H; cbn [firstn]; constructor; auto.
Qed.

Lemma firstn_plus {A : Type} (n m : nat) (l : list A) :
  firstn (n + m) l = firstn n l ++ firstn m (skipn n l).
Proof.
  revert l; induction n as [|n IH]; intros l; [reflexivity|].
  destruct l as [|x l]; cbn [Nat.add firstn skipn app].
  - now rewrite firstn_nil.
  - now rewrite IH.
Qed.

Lemma run_le (p : N -> bool) (cap : nat) (s : jsstring) :
  run p cap s <= cap /\ run p cap s <= length s.
Proof.
  revert s; induction cap as [|cap IH]; intros s; cbn [run]; [lia|].
  destruct s as [|c s]; [cbn [length]; lia|].
  destruct (p c); cbn [length]; [|lia].
  destruct (IH s); lia.
Qed.

Lemma run_class (p : N -> bool) (cap : nat) (s : jsstring) :
  Forall (fun c => p c = true) (firstn (run p cap s) s).
Proof.
  revert s; induction cap as [|cap IH]; intros s; cbn [run].
  - constructor.
  - destruct s as [|c s]; [constructor|].
    destruct (p c) eqn:E; cbn [firstn]; constructor; [exact E|apply IH].
Qed.

(** The run inside a prefix is at least what the cap and the prefix
    allow. *)
Lemma run_app (p : N -> bool) (cap cap' : nat) (s t : jsstring) (n : nat) :
  n <= run p cap (s ++ t) -> n <= length s -> n <= cap' -> n <= run p cap' s.
Proof.
  revert cap cap' s; induction n as [|n IH]; intros cap cap' s H Hs Hc; [lia|].
  destruct cap as [|cap]; [cbn [run] in H; lia|].
  destruct s as [|c s]; [cbn [length] in Hs; lia|].
  destruct cap' as [|cap']; [lia|].
  cbn [app run] in *. destruct (p c); [|lia].
  apply le_n_S. apply (IH cap cap' s); cbn [length] in Hs; lia.
Qed.

Lemma in_down_to (lo hi n : nat) : In n (down_to lo hi) <-> lo <= n <= hi.
Proof.
  induction hi as [|hi IH]; cbn [down_to].
  - destruct (Nat.ltb_spec 0 lo); cbn [In]; lia.
  - destruct (Nat.ltb_spec (S hi) lo); cbn [In]; [lia|].
    rewrite IH. lia.
Qed.

Lemma in_matches_cat (r1 r2 : re) (i : nat) (s : jsstring) (n : nat) :
  In n (matches (Cat r1 r2) i s) <->
  exists n1 n2, n = n1 + n2 /\ In n1 (matches r1 i s)
                /\ In n2 (matches r2 (i + n1) (skipn n1 s)).
Proof.
  cbn [matches]. rewrite in_flat_map. split.
  - intros [n1 [H1 H2]]. apply in_map_iff in H2 as [n2 [<- H2]].
    now exists n1, n2.
  - intros [n1 [n2 [-> [H1 H2]]]]. exists n1. split; [exact H1|].
    now apply in_map.
Qed.

(** A match lies within the string and consumes characters of the
    pattern's classes only. *)
Lemma matches_alphabet (r : re) :
  forall i s n, In n (matches r i s) ->
                n <= length s
                /\ Forall (fun c => alphabet r c = true) (firstn n s).
Proof.
  induction r as [|p|p lo hi|r1 IH1 r2 IH2]; intros i s n H.
  - cbn [matches] in H. destruct (i =? 0); [|contradiction].
    destruct H as [<-|[]]. split; [lia|constructor].
  - cbn [matches] in H. destruct s as [|c s]; [contradiction|].
    destruct (p c) eqn:E; [|contradiction]. destruct H as [<-|[]].
    split; [cbn [length]; lia|]. cbn [firstn alphabet]. now repeat constructor.
  - cbn [matches] in H. apply in_down_to in H.
    set (cap := match hi with Some h => h | None => length s end) in H.
    pose proof (run_le p cap s) as [_ L].
    split; [lia|]. cbn [alphabet].
    pose proof (run_class p cap s) as F.
    replace (firstn n s) with (firstn n (firstn (run p cap s) s))
      by (rewrite firstn_firstn; f_equal; lia).
    now apply Forall_prefix.
  - apply in_matches_cat in H as [n1 [n2 [-> [H1 H2]]]].
    apply IH1 in H1 as [L1 F1]. apply IH2 in H2 as [L2 F2].
    rewrite length_skipn in L2. split; [lia|].
    rewrite firstn_plus. apply Forall_app. split.
    + revert F1. apply Forall_impl. intros c E. cbn [alphabet]. now rewrite E.
    + revert F2. apply Forall_impl. intros c E. cbn [alphabet].
      rewrite E. apply orb_true_r.
Qed.

(** A match that ends inside a prefix of the input is a match of the
    prefix. *)
Lemma matches_prefix (r : re) :
  forall i s t n, In n (matches r i (s ++ t)) -> n <= length s ->
                  In n (matches r i s).
Proof.
  induction r as [|p|p lo hi|r1 IH1 r2 IH2]; intros i s t n H L.
  - exact H.
  - destruct s as [|c s]; cbn [app matches] in *.
    + destruct t as [|c t]; [contradiction|].
      destruct (p c); [|contradiction]. destruct H as [<-|[]].
      cbn [length] in L. lia.
    + exact H.
  - cbn [matches] in *. apply in_down_to in H. apply in_down_to.
    split; [lia|].
    destruct hi as [h|].
    + apply (run_app p h h s t n); try lia.
      pose proof (run_le p h (s ++ t)). lia.
    + apply (run_app p (length (s ++ t)) (length s) s t n); lia.
  - apply in_matches_cat in H as [n1 [n2 [-> [H1 H2]]]].
    apply in_matches_cat. exists n1, n2. split; [reflexivity|].
    split; [apply (IH1 i s t); [exact H1|lia]|].
    rewrite skipn_app in H2.
    replace (n1 - length s) with 0 in H2 by lia. cbn [skipn] in H2.
    apply (IH2 _ _ t); [exact H2|]. rewrite length_skipn. lia.
Qed.

Lemma search_from_none (r : re) (s : jsstring) :
  forall i, search_from r i s = None ->
            forall p, p <= length s -> matches r (i + p) (skipn p s) = [].
Proof.
  induction s as [|c s IH]; intros i H p Hp; cbn [search_from] in H.
  - destruct (matches r i []) eqn:E; [|discriminate].
    cbn [length] in Hp. replace p with 0 by lia.
    now rewrite Nat.add_0_r.
  - destruct (matches r i (c :: s)) eqn:E; [|discriminate].
    destruct p as [|p]; [now rewrite Nat.add_0_r|].
    cbn [skipn]. replace (i + S p) with (S i + p) by lia.
    apply IH; [exact H|]. cbn [length] in Hp. lia.
Qed.

Lemma search_from_skip (r : re) (a b : jsstring) :
  forall i,
    (forall p, p < length a -> matches r (i + p) (skipn p a ++ b) = []) ->
    search_from r i (a ++ b) = search_from r (i + length a) b.
Proof.
  induction a as [|c a IH]; intros i H.
  - cbn [app length]. now rewrite Nat.add_0_r.
  - cbn [app search_from].
    pose proof (H 0 ltac:(cbn [length]; lia)) as H0.
    rewrite Nat.add_0_r in H0. cbn [skipn app] in H0. rewrite H0.
    rewrite IH.
    + f_equal. cbn [length]. lia.
    + intros p Hp. specialize (H (S p) ltac:(cbn [length]; lia)).
      cbn [skipn] in H. now replace (S i + p) with (i + S p) by lia.
Qed.

End RegExpFacts.

(** ** The date and the employment line *)

Section DateLine.

(** The first piece of a split opens the string. *)
Lemma split_head (sep : N) (s : jsstring) :
  exists l ls b, split sep s = l :: ls /\ s = l ++ b.
Proof.
  induction s as [|c s (l & ls & b & E & Es)]; cbn [split].
  - now exists [], [], [].
  - destruct (N.eqb c sep).
    + now exists [], (split sep s), (c :: s).
    + rewrite E. exists (c :: l), ls, b. split; [reflexivity|].
      cbn [app]. now rewrite <- Es.
Qed.

Lemma split_app_sep (sep : N) (a b : jsstring) :
  split sep (a ++ sep :: b) = split sep a ++ split sep b.
Proof.
  induction a as [|c a IH]; cbn [app split].
  - now rewrite N.eqb_refl.
  - destruct (N.eqb c sep); [now rewrite IH|].
    rewrite IH. destruct (split_head sep a) as (l & ls & _ & -> & _).
    reflexivity.
Qed.

(** Every piece of a split is a part of the string. *)
Lemma split_infix (sep : N) (s l : jsstring) :
  In l (split sep s) -> exists a b, s = a ++ l ++ b.
Proof.
  revert l; induction s as [|c s IH]; intros l H; cbn [split] in H.
  - destruct H as [<-|[]]. now exists [], [].
  - destruct (N.eqb c sep).
    + destruct H as [<-|H]; [now exists [], (c :: s)|].
      destruct (IH l H) as [a [b ->]]. now exists (c :: a), b.
    + destruct (split_head sep s) as (l0 & ls & b0 & E & Es).
      rewrite E in H, IH. destruct H as [<-|H].
      * exists [], b0. cbn [app]. now rewrite <- Es.
      * destruct (IH l (or_intror H)) as [a [b ->]]. now exists (c :: a), b.
Qed.

Lemma find_app_none {A : Type} (f : A -> bool) (l1 l2 : list A) :
  (forall x, In x l1 -> f x = false) -> find f (l1 ++ l2) = find f l2.
Proof.
  induction l1 as [|x l1 IH]; intros H; [reflexivity|].
  cbn [app find]. rewrite (H x (or_introl eq_refl)).
  apply IH. intros y Hy. apply H. now right.
Qed.

(** No character after the first of a date pattern can be a capital. *)
Lemma date_not_across (i : nat) (s t : jsstring) :
  s <> [] -> matches date_re i s = [] ->
  matches date_re i (s ++ 78%N :: t) = [].
Proof.
  intros Hs H.
  destruct (matches date_re i (s ++ 78%N :: t)) as [|n l] eqn:E; [reflexivity|].
  exfalso.
  assert (Hn : In n (matches date_re i (s ++ 78%N :: t)))
    by (rewrite E; now left).
  destruct (Nat.le_gt_cases n (length s)) as [L|L].
  - apply matches_prefix in Hn; [|exact L]. now rewrite H in Hn.
  - destruct s as [|c s]; [contradiction|].
    unfold date_re in Hn. apply in_matches_cat in Hn as (n1 & n2 & -> & H1 & H2).
    assert (n1 = 1).
    { cbn [matches app] in H1. destruct (upper c); [|contradiction].
      now destruct H1 as [<-|[]]. }
    subst n1. cbn [skipn app] in H2.
    apply matches_alphabet in H2 as [_ F].
    cbn [length] in L.
    replace n2 with (length s + S (n2 - S (length s))) in F by lia.
    rewrite firstn_app_2 in F. cbn [firstn] in F.
    apply Forall_app in F as [_ F]. inversion F as [|? ? F0 _]; subst.
    vm_compute in F0. discriminate.
Qed.

Lemma search_from_head (r : re) (i n : nat) (l : list nat) (s : jsstring) :
  matches r i s = n :: l -> search_from r i s = Some (i, n).
Proof. intros H. destruct s; cbn [search_from]; now rewrite H. Qed.

Lemma date_at_line (i : nat) (post : jsstring) :
  matches date_re i (date_line ++ post) = [12].
Proof. vm_compute. reflexivity. Qed.

Lemma date_anywhere (i : nat) (x y : jsstring) :
  search_from date_re i (x ++ u "Nov 28, 2025" ++ y) <> None.
Proof.
  intros H.
  pose proof (search_from_none date_re _ i H (length x)) as M.
  rewrite length_app in M. specialize (M ltac:(lia)).
  rewrite skipn_app, skipn_all, Nat.sub_diag in M. cbn [app skipn] in M.
  vm_compute in M. discriminate.
Qed.

Variables pre post : jsstring.
Hypothesis pre_line : pre = [] \/ exists pre', pre = pre' ++ [10%N].
Hypothesis post_line : post = [] \/ exists post', post = 10%N :: post'.
Hypothesis pre_undated : findDate pre = None.

Lemma pre_no_match : search_from date_re 0 pre = None.
Proof.
  revert pre_undated. unfold findDate, match0, exec.
  destruct (search_from date_re 0 pre) as [[i n]|]; [discriminate|reflexivity].
Qed.

(** The date of the text is the date of the line. *)
Lemma findDate_line :
  findDate (pre ++ date_line ++ post) = Some (u "Nov 28, 2025").
Proof.
  unfold findDate, match0, exec.
  rewrite search_from_skip.
  - rewrite (search_from_head _ _ _ _ _ (date_at_line _ post)).
    cbn [Nat.add]. rewrite skipn_app, skipn_all, Nat.sub_diag. reflexivity.
  - intros p Hp.
    apply (date_not_across (0 + p) (skipn p pre)
                           (tl date_line ++ post)).
    + intros E. apply (f_equal (@length N)) in E.
      rewrite length_skipn in E. cbn [length] in E. lia.
    + apply search_from_none; [exact pre_no_match|lia].
Qed.

Lemma split_line :
  exists tl, split 10 (date_line ++ post) = date_line :: tl.
Proof.
  destruct post_line as [->|[post' ->]].
  - rewrite app_nil_r. now exists [].
  - rewrite split_app_sep. now exists (split 10 post').
Qed.

Lemma pre_lines_undated (pre' l : jsstring) :
  pre = pre' ++ [10%N] -> In l (split 10 pre') ->
  includes l (u "Nov 28, 2025") = false.
Proof.
  intros Ep Hl. destruct (includes l (u "Nov 28, 2025")) eqn:I; [|reflexivity].
  exfalso. apply split_infix in Hl as (a & b & Ea).
  apply includes_first in I as (p & _ & [_ [y Ey]] & _).
  apply (date_anywhere 0 (a ++ firstn p l) (y ++ b ++ [10%N])).
  replace ((a ++ firstn p l) ++ u "Nov 28, 2025" ++ y ++ b ++ [10%N])
    with pre; [exact pre_no_match|].
  rewrite Ep, Ea. rewrite <- (firstn_skipn p l) at 1. rewrite Ey.
  repeat (rewrite <- app_assoc; cbn [app]). reflexivity.
Qed.

(** The first line that holds the date is the line. *)
Lemma date_line_found :
  find (fun l => includes l (u "Nov 28, 2025"))
       (split 10 (pre ++ date_line ++ post)) = Some date_line.
Proof.
  destruct split_line as [tl E].
  destruct pre_line as [->|[pre' Ep]].
  - cbn [app]. rewrite E. reflexivity.
  - rewrite Ep, <- app_assoc. cbn [app]. rewrite split_app_sep, E.
    rewrite find_app_none; [reflexivity|].
    intros l Hl. now apply (pre_lines_undated pre').
Qed.

Lemma findJobTitle_line :
  findJobTitle (pre ++ date_line ++ post) (Some (u "Nov 28, 2025"))
  = Some (u "Current Employee - Engineer").
Proof.
  unfold findJobTitle.
  change (truthy (Some (u "Nov 28, 2025"))) with true. cbv iota.
  rewrite date_line_found. reflexivity.
Qed.

End DateLine.

(** C6, as the code has it.  When the text of an accepted card holds the
    line "Nov 28, 2025 - Current Employee - Engineer" as a line of its own
    and no date pattern matches before that line, the record's date is
    "Nov 28, 2025" and its job title is "Current Employee - Engineer". *)
Theorem date_line_extraction (card : Element) (r : Review)
        (pre post : jsstring) :
  parseReviewCard card = Some r ->
  innerText card = pre ++ date_line ++ post ->
  (pre = [] \/ exists pre', pre = pre' ++ [10%N]) ->
  (post = [] \/ exists post', post = 10%N :: post') ->
  findDate pre = None ->
  date r = Some (u "Nov 28, 2025")
  /\ job_title r = Some (u "Current Employee - Engineer").
Proof.
  intros H E Hpre Hpost Hnone. apply parseReviewCard_fields in H.
  destruct H as (_ & _ & Hd & _ & Hj & _).
  rewrite Hj, Hd, E.
  rewrite (findDate_line pre post Hnone).
  split; [reflexivity|]. now apply findJobTitle_line.
Qed.

Lemma date_line_extraction_witness :
  exists r,
    parseReviewCard sample_card = Some r
    /\ date r = Some (u "Nov 28, 2025")
    /\ job_title r = Some (u "Current Employee - Engineer").
Proof.
  eexists.
  assert (H : parseReviewCard sample_card = Some _) by (vm_compute; reflexivity).
  split; [exact H|].
  apply (date_line_extraction sample_card _ sample_before sample_after H).
  - vm_compute; reflexivity.
  - right. exists (removelast sample_before). vm_compute; reflexivity.
  - right. exists (tl sample_after). vm_compute; reflexivity.
  - vm_compute; reflexivity.
Defined.

(** C6 as stated fails: the date is the first match of the pattern in the
    whole text.  A card that shows "Oct 3, 2024" on a line above the line
    of the example is accepted with that date and an empty job title. *)
Lemma earlier_date_wins :
  exists r,
    parseReviewCard two_dates_card = Some r
    /\ In date_line (split 10 (innerText two_dates_card))
    /\ date r = Some (u "Oct 3, 2024")
    /\ job_title r = Some []
    /\ date r <> Some (u "Nov 28, 2025")
    /\ job_title r <> Some (u "Current Employee - Engineer").
Proof.
  eexists. split; [vm_compute; reflexivity|].
  split; [vm_compute; tauto|]. split; [reflexivity|]. split; [reflexivity|].
  split; discriminate.
Qed.


(** ** Further properties of the extractor *)

Section ExtractedText.

Lemma trim_trimmed (s : jsstring) : trimmed (trim s).
Proof.
  destruct (trim_spec s) as (lead & tail & _ & _ & _ & H1 & H2).
  split; assumption.
Qed.

(** What holds of every character of a string holds of those [trim]
    keeps. *)
Lemma Forall_trim (P : N -> Prop) (s : jsstring) :
  Forall P s -> Forall P (trim s).
Proof.
  destruct (trim_spec s) as (lead & tail & E & _). intros H.
  rewrite E in H. apply Forall_app in H as [_ H].
  now apply Forall_app in H as [H _].
Qed.

Lemma Forall_filter_neg (p : N -> bool) (s : jsstring) :
  Forall (fun c => p c = false) (filter (fun c => negb (p c)) s).
Proof.
  apply Forall_forall. intros c H. apply filter_In in H as [_ H].
  now apply negb_true_iff.
Qed.

End ExtractedText.

(** X1. A section that [getSection] returns holds no colon, hyphen or
    period and has no blank at either end. *)
Theorem getSection_clean (text kw : jsstring) (ends : list jsstring)
        (out : jsstring) :
  getSection text kw ends = Some out ->
  Forall (fun c => is_punct c = false) out /\ trimmed out.
Proof.
  unfold getSection. destruct (negb (includes text kw)); [discriminate|].
  intros E; injection E as <-. split; [|apply trim_trimmed].
  apply Forall_trim. unfold punct_re. rewrite removeAll_class.
  apply Forall_filter_neg.
Qed.

Lemma getSection_clean_witness :
  Forall (fun c => is_punct c = false) (u "wellpaid job")
  /\ trimmed (u "wellpaid job").
Proof.
  apply (getSection_clean hyphen_text (u "Pros")
                          [u "Cons"; u "Advice to Management"; u "Helpful"]).
  vm_compute; reflexivity.
Defined.


Section DateShape.

Lemma search_from_some (r : re) (s : jsstring) :
  forall i j n, search_from r i s = Some (j, n) ->
                exists k, j = i + k /\ k <= length s
                          /\ In n (matches r j (skipn k s)).
Proof.
  induction s as [|c s IH]; intros i j n H; cbn [search_from] in H.
  - destruct (matches r i []) as [|m l] eqn:E; [discriminate|].
    injection H as <- <-. exists 0.
    split; [lia|]. split; [lia|]. cbn [skipn]. rewrite E. now left.
  - destruct (matches r i (c :: s)) as [|m l] eqn:E.
    + destruct (IH _ _ _ H) as (k & -> & Hk & Hin).
      exists (S k). split; [lia|]. split; [cbn [length]; lia|exact Hin].
    + injection H as <- <-. exists 0.
      split; [lia|]. split; [lia|]. cbn [skipn]. rewrite E. now left.
Qed.

Lemma in_matches_cls (p : N -> bool) (i : nat) (s : jsstring) (n : nat) :
  In n (matches (Cls p) i s) ->
  n = 1 /\ exists c s', s = c :: s' /\ p c = true.
Proof.
  cbn [matches]. destruct s as [|c s]; [contradiction|].
  destruct (p c) eqn:E; [|contradiction]. intros [<-|[]].
  split; [reflexivity|]. now exists c, s.
Qed.

Lemma in_matches_rep (p : N -> bool) (lo hi i : nat) (s : jsstring) (n : nat) :
  In n (matches (Rep p lo (Some hi)) i s) ->
  lo <= n <= hi /\ Forall (fun c => p c = true) (firstn n s).
Proof.
  intros H. pose proof (matches_alphabet _ _ _ _ H) as [_ F].
  cbn [matches] in H. apply in_down_to in H.
  pose proof (run_le p hi s). split; [lia|exact F].
Qed.

(** A match of the date pattern: eleven to nineteen characters, a
    capital first and four digits last. *)
Lemma date_match_shape (i : nat) (s : jsstring) (n : nat) :
  In n (matches date_re i s) ->
  11 <= n <= 19 /\ n <= length s
  /\ (exists c s', s = c :: s' /\ upper c = true)
  /\ Forall (fun c => digit c = true) (skipn (n - 4) (firstn n s)).
Proof.
  intros H. pose proof (matches_alphabet _ _ _ _ H) as [L _].
  unfold date_re in H.
  apply in_matches_cat in H as (n1 & m1 & -> & H1 & H).
  apply in_matches_cat in H as (n2 & m2 & -> & H2 & H).
  apply in_matches_cat in H as (n3 & m3 & -> & H3 & H).
  apply in_matches_cat in H as (n4 & m4 & -> & H4 & H).
  apply in_matches_cat in H as (n5 & m5 & -> & H5 & H).
  apply in_matches_cat in H as (n6 & n7 & -> & H6 & H7).
  apply in_matches_cls in H1 as [-> Hc].
  apply in_matches_rep in H2 as [B2 _].
  apply in_matches_cls in H3 as [-> _].
  apply in_matches_rep in H4 as [B4 _].
  apply in_matches_cls in H5 as [-> _].
  apply in_matches_cls in H6 as [-> _].
  apply in_matches_rep in H7 as [B7 F7].
  assert (n7 = 4) by lia. subst n7.
  rewrite !skipn_skipn in F7.
  split; [lia|]. split; [exact L|]. split; [exact Hc|].
  set (m := 1 + (n2 + (1 + (n4 + (1 + 1))))).
  replace (1 + (n2 + (1 + (n4 + (1 + (1 + 4)))))) with (m + 4) by (unfold m; lia).
  replace (m + 4 - 4) with m by lia.
  rewrite <- firstn_skipn_comm.
  match type of F7 with
  | Forall _ (firstn 4 (skipn ?k s)) => replace k with m in F7 by (unfold m; lia)
  end.
  exact F7.
Qed.

End DateShape.

Lemma date_parts (text d : jsstring) :
  findDate text = Some d ->
  (exists a b, text = a ++ d ++ b)
  /\ 11 <= length d <= 19
  /\ (exists c t, d = c :: t /\ upper c = true)
  /\ Forall (fun c => digit c = true) (skipn (length d - 4) d).
Proof.
  unfold findDate, match0, exec.
  destruct (search_from date_re 0 text) as [[j n]|] eqn:E; [|discriminate].
  intros D; injection D as <-.
  apply search_from_some in E as (k & -> & Hk & Hin). cbn [Nat.add] in *.
  apply date_match_shape in Hin as (Hn & Hl & (c & s' & Es & Hc) & Hd).
  assert (Len : length (firstn n (skipn k text)) = n)
    by (rewrite length_firstn; lia).
  split; [|split; [|split]].
  - exists (firstn k text), (skipn n (skipn k text)).
    now rewrite firstn_skipn, firstn_skipn.
  - lia.
  - exists c, (firstn (n - 1) s'). rewrite Es.
    destruct n as [|n]; [lia|]. cbn [firstn]. split; [|exact Hc].
    do 2 f_equal. lia.
  - now rewrite Len.
Qed.

(** X2. The date of a text, when there is one, is a part of the text of
    11 to 19 characters that opens with a capital letter and ends in four
    digits. *)
Theorem findDate_shape (text d : jsstring) :
  findDate text = Some d ->
  (exists a b, text = a ++ d ++ b)
  /\ 11 <= length d <= 19
  /\ (exists c t, d = c :: t /\ upper c = true)
  /\ Forall (fun c => digit c = true) (skipn (length d - 4) d).
Proof. exact (date_parts text d). Qed.

Lemma findDate_shape_witness :
  (exists a b, sample_text = a ++ u "Nov 28, 2025" ++ b)
  /\ 11 <= length (u "Nov 28, 2025") <= 19
  /\ (exists c t, u "Nov 28, 2025" = c :: t /\ upper c = true)
  /\ Forall (fun c => digit c = true)
            (skipn (length (u "Nov 28, 2025") - 4) (u "Nov 28, 2025")).
Proof.
  apply (findDate_shape sample_text (u "Nov 28, 2025")).
  vm_compute; reflexivity.
Defined.


Section JobTitle.

Lemma bol_later (r : re) (s : jsstring) (i : nat) :
  search_from (Cat Bol r) (S i) s = None.
Proof.
  revert i; induction s as [|c s IH]; intros i; cbn [search_from matches flat_map Nat.eqb];
    [reflexivity|apply IH].
Qed.

Lemma matches_bol (r : re) (s : jsstring) :
  matches (Cat Bol r) 0 s = matches r 0 s.
Proof.
  cbn [matches Nat.eqb flat_map skipn Nat.add]. rewrite app_nil_r.
  rewrite <- (map_id (matches r 0 s)) at 2. now apply map_ext.
Qed.

(** Where a run stops short of its cap, the next character is outside
    the class. *)
Lemma run_stop (p : N -> bool) (cap : nat) (s : jsstring) :
  run p cap s < cap ->
  forall c t, skipn (run p cap s) s = c :: t -> p c = false.
Proof.
  revert s; induction cap as [|cap IH]; intros s H c t E; [lia|].
  destruct s as [|x s]; [discriminate|]. cbn [run] in *.
  destruct (p x) eqn:Px.
  - cbn [skipn] in E. apply (IH s ltac:(lia) c t E).
  - cbn [skipn] in E. injection E as <- <-. exact Px.
Qed.

(** Removing the leading separators leaves a text that opens with none. *)
Lemma lead_sep_removed (s : jsstring) :
  exists k,
    removeMatch lead_sep_re s = skipn k s
    /\ forall c t, skipn k s = c :: t ->
                   either is_space (one_of (u "-|")) c = false.
Proof.
  set (p := either is_space (one_of (u "-|"))).
  exists (run p (length s) s). split.
  - unfold removeMatch, exec, lead_sep_re. fold p.
    destruct s as [|c s].
    + reflexivity.
    + cbn [search_from]. rewrite matches_bol, bol_later.
      cbn [matches]. destruct (run p (length (c :: s)) (c :: s)) as [|m] eqn:R.
      * reflexivity.
      * cbn [down_to Nat.ltb Nat.leb]. reflexivity.
  - intros c t E. pose proof (run_le p (length s) s) as [_ L].
    destruct (Nat.eq_dec (run p (length s) s) (length s)) as [Eq|Ne].
    + rewrite Eq, skipn_all in E. discriminate.
    + apply (run_stop p (length s) s ltac:(lia) c t E).
Qed.

(** [trim] keeps the head of a text that opens with no blank. *)
Lemma trim_head (x : jsstring) (c : N) (t : jsstring) :
  (forall c' t', x = c' :: t' -> is_space c' = false) ->
  trim x = c :: t -> exists t', x = c :: t'.
Proof.
  intros Hx E. destruct (trim_spec x) as (lead & tail & Ex & Fl & _).
  destruct lead as [|l lead].
  - cbn [app] in Ex. rewrite E in Ex. now exists (t ++ tail).
  - inversion Fl as [|? ? Hl _]; subst. cbn [app] in Ex.
    rewrite (Hx l _ Ex) in Hl. discriminate.
Qed.

Lemma split_no_sep (sep : N) (s l : jsstring) :
  In l (split sep s) -> ~ In sep l.
Proof.
  revert l; induction s as [|c s IH]; intros l H; cbn [split] in H.
  - destruct H as [<-|[]]. intros [].
  - destruct (N.eqb_spec c sep) as [->|Ne].
    + destruct H as [<-|H]; [intros []|now apply IH].
    + destruct (split sep s) as [|l0 ls] eqn:E.
      * destruct H as [<-|[]]. intros [<-|[]]. now apply Ne.
      * destruct H as [<-|H].
        -- intros [<-|Hin]; [now apply Ne|].
           apply (IH l0); [now left|exact Hin].
        -- apply IH. now right.
Qed.

Lemma includes_infix (l d : jsstring) :
  includes l d = true -> exists a b, l = a ++ d ++ b.
Proof.
  intros H. apply includes_first in H as (p & _ & [_ [b E]] & _).
  exists (firstn p l), b. rewrite <- E. now rewrite firstn_skipn.
Qed.

Lemma findJobTitle_some (text : jsstring) (date : option jsstring) (j : jsstring) :
  findJobTitle text date = Some j ->
  exists d line,
    date = Some d /\ d <> [] /\ In line (split 10 text)
    /\ includes line d = true
    /\ j = trim (removeMatch lead_sep_re (removeFirst line d)).
Proof.
  unfold findJobTitle. destruct date as [d|]; [|discriminate].
  destruct (truthy (Some d)) eqn:T; [|discriminate].
  destruct (find (fun l => includes l d) (split 10 text)) as [line|] eqn:F;
    [|discriminate].
  destruct (truthy (Some line)); [|discriminate].
  intros E; injection E as <-. apply find_some in F as [Hin Hinc].
  exists d, line. split; [reflexivity|]. split.
  - intros ->. discriminate.
  - repeat split; assumption.
Qed.

End JobTitle.

(** X3. A job title is extracted only when there is a date and a line of
    the text holds it; it never opens with a blank, a hyphen or a pipe and
    never ends with a blank. *)
Theorem job_title_clean (text : jsstring) (date : option jsstring)
        (j : jsstring) :
  findJobTitle text date = Some j ->
  (exists d line, date = Some d /\ In line (split 10 text)
                  /\ includes line d = true)
  /\ (forall c t, j = c :: t ->
                  is_space c = false /\ c <> 45%N /\ c <> 124%N)
  /\ (forall t c, j = t ++ [c] -> is_space c = false).
Proof.
  intros H. apply findJobTitle_some in H as (d & line & -> & _ & Hin & Hinc & ->).
  split; [now exists d, line|].
  destruct (lead_sep_removed (removeFirst line d)) as (k & -> & Hk).
  destruct (trim_trimmed (skipn k (removeFirst line d))) as [_ Hlast].
  split; [|exact Hlast].
  intros c t E.
  assert (Hx : forall c' t', skipn k (removeFirst line d) = c' :: t' ->
                            is_space c' = false).
  { intros c' t' E'. specialize (Hk c' t' E'). unfold either in Hk.
    now apply orb_false_iff in Hk as [Hk _]. }
  destruct (trim_head _ _ _ Hx E) as [t' E'].
  specialize (Hk c t' E'). unfold either in Hk.
  apply orb_false_iff in Hk as [Hs Ho]. split; [exact Hs|].
  split; intros ->; vm_compute in Ho; discriminate.
Qed.

Lemma job_title_clean_witness :
  (exists d line, findDate sample_text = Some d /\ In line (split 10 sample_text)
                  /\ includes line d = true)
  /\ (forall c t, u "Current Employee - Engineer" = c :: t ->
                  is_space c = false /\ c <> 45%N /\ c <> 124%N)
  /\ (forall t c, u "Current Employee - Engineer" = t ++ [c] -> is_space c = false).
Proof.
  apply (job_title_clean sample_text (findDate sample_text)).
  vm_compute; reflexivity.
Defined.

(** X4. When the matched date runs over a line break, no line holds it
    and there is no job title. *)
Theorem job_title_needs_one_line (text d : jsstring) :
  findDate text = Some d -> In 10%N d ->
  findJobTitle text (findDate text) = None.
Proof.
  intros Hd Hnl. rewrite Hd.
  destruct (findJobTitle text (Some d)) as [j|] eqn:E; [|reflexivity].
  exfalso. apply findJobTitle_some in E as (d' & line & Ed & _ & Hin & Hinc & _).
  injection Ed as <-. apply includes_infix in Hinc as (a & b & ->).
  apply (split_no_sep _ _ _ Hin). apply in_or_app. right.
  apply in_or_app. now left.
Qed.

Lemma job_title_needs_one_line_witness :
  findDate broken_date_text = Some (unlines [u "Nov 28,"; u "2025"])
  /\ findJobTitle broken_date_text (findDate broken_date_text) = None.
Proof.
  assert (H : findDate broken_date_text = Some (unlines [u "Nov 28,"; u "2025"]))
    by (vm_compute; reflexivity).
  split; [exact H|].
  apply (job_title_needs_one_line _ _ H). vm_compute. tauto.
Defined.

Section Trimmed.

Lemma digit_not_space (c : N) : digit c = true -> is_space c = false.
Proof.
  unfold digit, between. intros H. apply andb_true_iff in H as [H1 H2].
  apply N.leb_le in H1, H2.
  assert (C : (c = 48 \/ c = 49 \/ c = 50 \/ c = 51 \/ c = 52 \/ c = 53
               \/ c = 54 \/ c = 55 \/ c = 56 \/ c = 57)%N) by lia.
  repeat (destruct C as [->|C]; [reflexivity|]). now subst.
Qed.

Lemma upper_not_space (c : N) : upper c = true -> is_space c = false.
Proof.
  unfold upper, between, is_space. intros H. apply andb_true_iff in H as [H1 H2].
  apply N.leb_le in H1, H2.
  repeat match goal with
         | |- context [(?a <=? ?b)%N] => destruct (N.leb_spec a b); try lia
         | |- context [(?a =? ?b)%N] => destruct (N.eqb_spec a b); try lia
         end;
    try reflexivity.
Qed.

Lemma date_trimmed (text d : jsstring) : findDate text = Some d -> trimmed d.
Proof.
  intros H. apply date_parts in H as (_ & L & (c & t & -> & Hc) & Hd).
  split.
  - intros c' t' E. injection E as <- <-. now apply upper_not_space.
  - intros t' c' E. apply digit_not_space.
    rewrite E in Hd, L. rewrite length_app in Hd, L. cbn [length] in Hd, L.
    rewrite skipn_app in Hd. apply Forall_app in Hd as [_ Hd].
    replace (length t' + 1 - 4 - length t') with 0 in Hd by lia.
    cbn [skipn] in Hd. now inversion Hd.
Qed.

Lemma rating_trimmed (card : Element) (text : jsstring) :
  trimmed_field (findRating card text).
Proof.
  assert (M : forall m, match0 rating_re text = Some m -> trimmed m).
  { intros m Hm. apply rating_re_match in Hm as (d & f & rest & _ & -> & Hd & Hf).
    split.
    - intros c t E. injection E as <- <-. apply digit_not_space.
      unfold digit, between. apply andb_true_iff; split; apply N.leb_le; lia.
    - intros t c E. change [d; 46%N; f] with ([d; 46%N] ++ [f]) in E.
      apply app_inj_tail in E as [_ <-]. apply digit_not_space.
      unfold digit, between. apply andb_true_iff; split; apply N.leb_le; lia. }
  unfold findRating.
  destruct (ratingElement card) as [e|].
  - destruct (negb (truthy (Some (trim (innerText e))))).
    + destruct (match0 rating_re text) as [m|] eqn:Hm.
      * now apply M.
      * apply trim_trimmed.
    + apply trim_trimmed.
  - cbn [truthy negb].
    destruct (match0 rating_re text) as [m|] eqn:Hm; [now apply M|exact I].
Qed.

Lemma section_trimmed (text kw : jsstring) (ends : list jsstring) :
  trimmed_field (getSection text kw ends).
Proof.
  unfold getSection. destruct (negb (includes text kw)); [exact I|].
  apply trim_trimmed.
Qed.

End Trimmed.

(** X5. No field of an accepted record has a blank at either end. *)
Theorem record_fields_trimmed (card : Element) (r : Review) :
  parseReviewCard card = Some r ->
  trimmed_field (rating r) /\ trimmed_field (date r)
  /\ trimmed_field (title r) /\ trimmed_field (job_title r)
  /\ trimmed_field (pros r) /\ trimmed_field (cons r)
  /\ trimmed_field (advice r).
Proof.
  intros H. apply parseReviewCard_fields in H. cbv zeta in H.
  destruct H as (F0 & Fr & Hd & Ft & Hj & Fp & Fc & Fa & F9).
  rewrite Fr, Ft, Fp, Fc, Fa.
  split; [apply rating_trimmed|]. split.
  - rewrite Hd. destruct (findDate (innerText card)) as [d|] eqn:E; [|exact I].
    now apply (date_trimmed (innerText card)).
  - split.
    + unfold findTitle. destruct (querySelector card sel_reviewLink); [|exact I].
      apply trim_trimmed.
    + split; [|repeat split; apply section_trimmed].
      rewrite Hj.
      destruct (findJobTitle (innerText card) (findDate (innerText card)))
        as [j|] eqn:E; [|exact I].
      apply findJobTitle_some in E as (d & line & _ & _ & _ & _ & ->).
      apply trim_trimmed.
Qed.

Lemma record_fields_trimmed_witness :
  exists r,
    parseReviewCard unrated_card = Some r
    /\ rating r = Some (u "N/A")
    /\ trimmed_field (rating r) /\ trimmed_field (date r)
    /\ trimmed_field (title r) /\ trimmed_field (job_title r)
    /\ trimmed_field (pros r) /\ trimmed_field (cons r)
    /\ trimmed_field (advice r).
Proof.
  eexists.
  assert (H : parseReviewCard unrated_card = Some _) by (vm_compute; reflexivity).
  split; [exact H|]. split; [reflexivity|].
  exact (record_fields_trimmed unrated_card _ H).
Defined.


(** ** Further properties of the candidate selection *)

Section Selection.

Lemma parseAll_in (cands : list Node) (r : Review) :
  In r (parseAll cands) <->
  exists n, In n cands /\ parseReviewCard (snd n) = Some r.
Proof.
  unfold parseAll. rewrite in_flat_map. split.
  - intros [n [Hn Hr]]. exists n. split; [exact Hn|].
    destruct (parseReviewCard (snd n)) as [r'|]; [|contradiction].
    destruct Hr as [<-|[]]. reflexivity.
  - intros [n [Hn Hr]]. exists n. split; [exact Hn|]. rewrite Hr. now left.
Qed.

Lemma nodes_at_eq (p : path) (tag : jsstring) (attrs : list (jsstring * jsstring))
      (text : jsstring) (kids : list Element) :
  nodes_at p (Elem tag attrs text kids)
  = (p, Elem tag attrs text kids) :: nodes_below p 0 kids.
Proof.
  cbn [nodes_at]. f_equal. generalize 0.
  induction kids as [|k kids IH]; intros i; [reflexivity|].
  cbn [nodes_below]. now rewrite <- IH.
Qed.

(** Every node below [p] has a position that extends [p]. *)
Lemma nodes_at_prefix (e : Element) :
  forall p n, In n (nodes_at p e) -> exists rest, fst n = p ++ rest.
Proof.
  induction e as [tag attrs text kids IH] using Element_nested_ind.
  intros p n. rewrite nodes_at_eq. intros [<-|H].
  - exists []. now rewrite app_nil_r.
  - revert H. generalize 0.
    induction IH as [|k kids Hk _ IHk]; intros i H; [contradiction|].
    cbn [nodes_below] in H. apply in_app_or in H as [H|H].
    + destruct (Hk _ _ H) as [rest E]. exists (i :: rest).
      rewrite E, <- app_assoc. reflexivity.
    + now apply (IHk (S i)).
Qed.

Lemma nodes_below_index (p : path) (ks : list Element) :
  forall i n, In n (nodes_below p i ks) ->
              exists j rest, i <= j /\ fst n = p ++ j :: rest.
Proof.
  induction ks as [|k ks IH]; intros i n H; [contradiction|].
  cbn [nodes_below] in H. apply in_app_or in H as [H|H].
  - destruct (nodes_at_prefix _ _ _ H) as [rest E]. exists i, rest.
    split; [lia|]. rewrite E, <- app_assoc. reflexivity.
  - destruct (IH _ _ H) as (j & rest & Hj & E). exists j, rest.
    split; [lia|exact E].
Qed.

(** The positions of the nodes of a document are distinct: a position
    identifies a node. *)
Lemma nodes_at_distinct (e : Element) :
  forall p, NoDup (map fst (nodes_at p e)).
Proof.
  induction e as [tag attrs text kids IH] using Element_nested_ind.
  intros p. rewrite nodes_at_eq. cbn [map fst]. constructor.
  - intros H. apply in_map_iff in H as [n [E H]].
    apply nodes_below_index in H as (j & rest & _ & E').
    rewrite E' in E. apply (f_equal (@length nat)) in E.
    rewrite length_app in E. cbn [length] in E. lia.
  - generalize 0.
    induction IH as [|k kids Hk _ IHk]; intros i; [constructor|].
    cbn [nodes_below]. rewrite map_app. apply NoDup_app.
    + apply Hk.
    + apply IHk.
    + intros q H1 H2.
      apply in_map_iff in H1 as [n1 [E1 H1]], H2 as [n2 [E2 H2]].
      apply nodes_at_prefix in H1 as [r1 F1].
      apply nodes_below_index in H2 as (j & r2 & Hj & F2).
      rewrite <- E1, F1, <- app_assoc in E2. rewrite F2 in E2.
      apply app_inv_head in E2. injection E2 as -> _. lia.
Qed.

Lemma same_position (doc : Element) (a d : Node) :
  In a (nodes doc) -> In d (nodes doc) -> fst a = fst d -> a = d.
Proof.
  unfold nodes. pose proof (nodes_at_distinct doc []) as N.
  induction (nodes_at [] doc) as [|x l IH]; [contradiction|].
  cbn [map] in N. inversion N as [|? ? Hx Hl]; subst.
  intros [<-|Ha] [<-|Hd] E.
  - reflexivity.
  - exfalso. apply Hx. rewrite E. now apply in_map.
  - exfalso. apply Hx. rewrite <- E. now apply in_map.
  - now apply IH.
Qed.

Lemma uniqueDivs_nodes (doc : Element) (d : Node) :
  In d (uniqueDivs doc) -> In d (nodes doc).
Proof.
  intros H. apply uniqueDivs_spec in H as [H _].
  now apply reviewDivs_spec in H as [H _].
Qed.

End Selection.

(** X6. Every review that [extractReviews] returns is the record of a
    list item of the document or, only when no list item yields a record,
    of a fallback candidate that no other candidate contains; and it has a
    rating and at least one of pros, cons and title. *)
Theorem extractReviews_sound (doc : Element) (r : Review) :
  In r (extractReviews doc) ->
  (exists n, parseReviewCard (snd n) = Some r
             /\ (In n (nodes doc) /\ localName (snd n) = u "li"
                 \/ parseAll (querySelectorAll doc (ByTag (u "li"))) = []
                    /\ candidate doc n
                    /\ forall o, candidate doc o -> ~ below (fst o) (fst n)))
  /\ truthy (rating r) = true
  /\ (truthy (pros r) || truthy (cons r) || truthy (title r)) = true.
Proof.
  intros H.
  assert (N : exists n, parseReviewCard (snd n) = Some r
              /\ (In n (querySelectorAll doc (ByTag (u "li")))
                  \/ parseAll (querySelectorAll doc (ByTag (u "li"))) = []
                     /\ In n (uniqueDivs doc))).
  { unfold extractReviews in H. cbv zeta in H.
    destruct (parseAll (querySelectorAll doc (ByTag (u "li")))) as [|r0 l] eqn:E.
    - apply parseAll_in in H as [n [Hn Hr]]. exists n. split; [exact Hr|].
      right. now split.
    - rewrite <- E in H. apply parseAll_in in H as [n [Hn Hr]].
      exists n. split; [exact Hr|]. now left. }
  destruct N as (n & Hr & Hn). split.
  - exists n. split; [exact Hr|]. destruct Hn as [Hn|[E Hn]].
    + left. unfold querySelectorAll in Hn. apply filter_In in Hn as [Hn Hs].
      split; [exact Hn|]. cbn [selects] in Hs. unfold JsString.eqb in Hs.
      now destruct (list_eq_dec N.eq_dec (localName (snd n)) (u "li")).
    + right. split; [exact E|]. apply uniqueDivs_spec in Hn as [Hc Hout].
      split; [now apply reviewDivs_spec|].
      intros o Ho [Hne [rest Hpre]]. apply Hne, Hout.
      * now apply reviewDivs_spec.
      * apply contains_prefix. now exists rest.
  - apply parseReviewCard_fields in Hr.
    destruct Hr as (_ & _ & _ & _ & _ & _ & _ & _ & K).
    now apply andb_true_iff in K.
Qed.

Lemma extractReviews_sound_witness :
  exists r,
    In r (extractReviews nested_doc)
    /\ (exists n, parseReviewCard (snd n) = Some r
                  /\ (In n (nodes nested_doc) /\ localName (snd n) = u "li"
                      \/ parseAll (querySelectorAll nested_doc (ByTag (u "li"))) = []
                         /\ candidate nested_doc n
                         /\ forall o, candidate nested_doc o ->
                                      ~ below (fst o) (fst n)))
    /\ truthy (rating r) = true
    /\ (truthy (pros r) || truthy (cons r) || truthy (title r)) = true.
Proof.
  eexists.
  assert (H : In _ (extractReviews nested_doc)) by (vm_compute; left; reflexivity).
  split; [exact H|]. exact (extractReviews_sound nested_doc _ H).
Defined.

(** X7. No two fallback candidates that survive the deduplication are
    nested: if one contains the other, they are the same node. *)
Theorem uniqueDivs_not_nested (doc : Element) (a d : Node) :
  In a (uniqueDivs doc) -> In d (uniqueDivs doc) ->
  contains (fst a) (fst d) = true -> a = d.
Proof.
  intros Ha Hd Hc. apply (same_position doc).
  - now apply uniqueDivs_nodes.
  - now apply uniqueDivs_nodes.
  - apply uniqueDivs_spec in Hd as [_ Hout]. apply Hout; [|exact Hc].
    now apply uniqueDivs_spec in Ha as [Ha _].
Qed.

Lemma uniqueDivs_not_nested_witness :
  let a := nth 1 (nodes nested_doc) ([], nested_doc) in
  In a (uniqueDivs nested_doc) /\ a = a.
Proof.
  intros a.
  assert (H : In a (uniqueDivs nested_doc)) by (vm_compute; left; reflexivity).
  split; [exact H|].
  apply (uniqueDivs_not_nested nested_doc a a H H). reflexivity.
Defined.


(** ** Further properties of the store *)

Section StoreMore.

Lemma contents_stored (f : file) (l : list json) :
  stored f = Some l -> contents f = l.
Proof. unfold contents. now intros ->. Qed.

(** On a sound store [saveData] returns and the store stays sound, with
    the batch after what it held. *)
Lemma saveData_sound (st : file) (batch : list json) :
  sound st -> Forall plain batch ->
  exists st', saveData st batch = Returned st'
              /\ sound st' /\ contents st' = contents st ++ batch.
Proof.
  intros [->|(old & Hs & Hp)] Hb.
  - exists (Some (stringify (JArr batch))). split; [reflexivity|].
    pose proof (stored_stringify batch Hb) as S. split.
    + right. now exists batch.
    + now rewrite (contents_stored _ _ S).
  - exists (Some (stringify (JArr (old ++ batch)))).
    split; [now apply saveData_appends|].
    assert (Hall : Forall plain (old ++ batch)) by (apply Forall_app; now split).
    pose proof (stored_stringify _ Hall) as S. split.
    + right. now exists (old ++ batch).
    + now rewrite (contents_stored _ _ S), (contents_stored _ _ Hs).
Qed.

Lemma code_points_concat (s : jsstring) : concat (code_points s) = s.
Proof.
  enough (H : concat (code_points s) = s
              /\ forall c, concat (code_points (c :: s)) = c :: s) by apply H.
  induction s as [|d s [IH1 IH2]].
  - split; [reflexivity|]. intros c. cbn [code_points].
    destruct (is_high c); reflexivity.
  - split; [apply IH2|]. intros c.
    change (code_points (c :: d :: s))
      with (if is_high c
            then if is_low d then [c; d] :: code_points s
                 else [c] :: code_points (d :: s)
            else [c] :: code_points (d :: s)).
    destruct (is_high c); [destruct (is_low d)|]; cbn [concat app];
      now rewrite ?IH1, ?IH2.
Qed.

End StoreMore.





(** X10. When the store file holds a JSON string, [saveData] returns and
    the store it writes holds the code points of that string, one string
    each, followed by the batch. *)
Theorem saveData_string_store (content s : jsstring) (batch : list json) :
  parse content = Some (JStr s) -> Forall plain batch ->
  exists f', saveData (Some content) batch = Returned f'
             /\ stored f' = Some (map JStr (code_points s) ++ batch)
             /\ concat (code_points s) = s.
Proof.
  intros H Hb. unfold saveData. rewrite H. cbn [spread].
  exists (Some (stringify (JArr (map JStr (code_points s) ++ batch)))).
  split; [reflexivity|]. split; [|apply code_points_concat].
  apply stored_stringify. apply Forall_app. split; [|exact Hb].
  apply Forall_forall. intros x Hx. apply in_map_iff in Hx as [y [<- _]].
  exact I.
Qed.

Lemma saveData_string_store_witness :
  exists f', saveData (Some string_store) [JNull] = Returned f'
             /\ stored f' = Some (map JStr (code_points (u "hi")) ++ [JNull])
             /\ concat (code_points (u "hi")) = u "hi".
Proof.
  apply (saveData_string_store string_store (u "hi") [JNull]).
  - vm_compute; reflexivity.
  - repeat constructor.
Defined.


(** ** Further properties of the page loop *)

Section PageLoopStore.

Variable companyName : jsstring.
Variable views : nat -> PageView.

Lemma harvest_step (i n : nat) :
  harvest companyName views i (S n)
  = page_records companyName (views i) ++ harvest companyName views (S i) n.
Proof. reflexivity. Qed.

(** What one iteration does to a sound store. *)
Lemma iteration_saves (doc : Element) (st : file) :
  sound st ->
  exists st',
    match extractReviews doc with
    | [] => Returned st
    | _ :: _ => saveData st (map (review_json companyName) (extractReviews doc))
    end = Returned st'
    /\ sound st'
    /\ contents st'
       = contents st ++ map (review_json companyName) (extractReviews doc).
Proof.
  intros Hs. destruct (extractReviews doc) as [|r rs] eqn:E.
  - exists st. split; [reflexivity|]. split; [exact Hs|].
    cbn [map]. now rewrite app_nil_r.
  - apply saveData_sound; [exact Hs|apply reviews_plain].
Qed.

Lemma pageLoop_store (n : nat) :
  forall i st,
    sound st ->
    let r := pageLoop companyName views n i st in
    i <= pages r
    /\ (0 < n -> i < pages r)
    /\ sound (store r)
    /\ contents (store r)
       = contents st ++ harvest companyName views i (pages r - i)
    /\ (ending r = Rejected -> views (pages r - 1) = PageLost)
    /\ (ending r = Broke ->
        exists doc next, views (pages r - 1) = Page doc next
                         /\ breaks next = true)
    /\ (ending r = Exhausted <->
        forall j, i <= j < i + n ->
                  exists doc next, views j = Page doc next /\ breaks next = false).
Proof.
  induction n as [|n IH]; intros i st Hs; cbn [pageLoop]; cbv zeta.
  - cbn [pages store ending]. rewrite Nat.sub_diag.
    split; [lia|]. split; [lia|]. split; [exact Hs|].
    split; [cbn; now rewrite app_nil_r|]. split; [discriminate|].
    split; [discriminate|]. split; [intros _ j Hj; lia|reflexivity].
  - destruct (views i) as [|doc next] eqn:V.
    + cbn [pages store ending].
      replace (S i - i) with 1 by lia. rewrite harvest_step, V.
      replace (S i - 1) with i by lia.
      split; [lia|]. split; [lia|]. split; [exact Hs|].
      split; [cbn; now rewrite app_nil_r|]. split; [intros _; exact V|].
      split; [discriminate|]. split; [discriminate|].
      intros H. destruct (H i ltac:(lia)) as (d & nx & E & _). congruence.
    + destruct (iteration_saves doc st Hs) as (st' & -> & Hs' & C).
      destruct (breaks next) eqn:B.
      * cbn [pages store ending].
        replace (S i - i) with 1 by lia. rewrite harvest_step, V.
        replace (S i - 1) with i by lia.
        split; [lia|]. split; [lia|]. split; [exact Hs'|].
        split; [cbn [page_records harvest seq flat_map]; now rewrite app_nil_r|].
        split; [discriminate|]. split; [intros _; now exists doc, next|].
        split; [discriminate|].
        intros H. destruct (H i ltac:(lia)) as (d & nx & E & Bn). congruence.
      * destruct (IH (S i) st' Hs') as (Hp & _ & Hsr & Hc & Hrej & Hbr & Hex).
        split; [lia|]. split; [lia|]. split; [exact Hsr|]. split.
        { rewrite Hc, C.
          replace (pages (pageLoop companyName views n (S i) st') - i)
            with (S (pages (pageLoop companyName views n (S i) st') - S i))
            by lia.
          rewrite harvest_step, V. cbn [page_records].
          now rewrite app_assoc. }
        split; [exact Hrej|]. split; [exact Hbr|].
        rewrite Hex. split.
        -- intros H j Hj. destruct (Nat.eq_dec j i) as [->|Ne].
           ++ now exists doc, next.
           ++ apply H. lia.
        -- intros H j Hj. apply H. lia.
Qed.

End PageLoopStore.






(** ** The locator *)

Section LocatorFacts.

Lemma includes_occurs (s k : jsstring) :
  includes s k = true <-> exists p, occurs_at s k p.
Proof.
  split.
  - intros H. apply includes_first in H as (p & _ & H & _). now exists p.
  - intros [p H]. destruct (includes s k) eqn:E; [reflexivity|].
    exfalso. exact (includes_false s k E p H).
Qed.

Lemma occurs_at_app (a s k : jsstring) (p : nat) :
  occurs_at s k p -> occurs_at (a ++ s) k (length a + p).
Proof.
  intros [Hp [post E]]. split; [rewrite length_app; lia|].
  exists post. rewrite skipn_app.
  replace (length a + p - length a) with p by lia.
  rewrite skipn_all2 by lia. exact E.
Qed.

(** An occurrence in [a ++ s] that starts after [a] is an occurrence
    in [s]. *)
Lemma occurs_at_after (a s k : jsstring) (p : nat) :
  occurs_at (a ++ s) k p -> length a <= p -> occurs_at s k (p - length a).
Proof.
  intros [Hp [post E]] L. rewrite length_app in Hp. split; [lia|].
  exists post. rewrite skipn_app in E. rewrite skipn_all2 in E by lia.
  exact E.
Qed.

Lemma find_first {A : Type} (f : A -> bool) (l : list A) (x : A) :
  find f l = Some x ->
  exists before after,
    l = before ++ x :: after /\ f x = true
    /\ forall y, In y before -> f y = false.
Proof.
  induction l as [|y l IH]; intros H; [discriminate|]. cbn [find] in H.
  destruct (f y) eqn:E.
  - injection H as <-. exists [], l. split; [reflexivity|].
    split; [exact E|]. intros z [].
  - destruct (IH H) as (b & a & -> & Hx & Hb). exists (y :: b), a.
    split; [reflexivity|]. split; [exact Hx|].
    intros z [<-|Hz]; [exact E|now apply Hb].
Qed.

Lemma absolutize_not_relative (url : jsstring) :
  starts (u "/") (absolutize url) = false.
Proof.
  unfold absolutize. destruct (starts (u "/") url) eqn:E; [reflexivity|exact E].
Qed.

Lemma absolutize_includes (url k : jsstring) :
  includes url k = true -> includes (absolutize url) k = true.
Proof.
  unfold absolutize. destruct (starts (u "/") url); [|trivial].
  rewrite !includes_occurs. intros [p H].
  exists (length (u "https://www.glassdoor.ca") + p). now apply occurs_at_app.
Qed.

(** The site prefix holds no capital R, so the index address cannot begin
    inside it. *)
Lemma prefix_has_no_index (h : jsstring) (p : nat) :
  p < 24 ->
  ~ occurs_at (u "https://www.glassdoor.ca" ++ h) (u "Reviews/index.htm") p.
Proof.
  intros Hp [_ [post E]].
  do 24 (destruct p as [|p]; [discriminate E|]). lia.
Qed.

Lemma absolutize_excludes_index (url : jsstring) :
  includes url (u "Reviews/index.htm") = false ->
  includes (absolutize url) (u "Reviews/index.htm") = false.
Proof.
  unfold absolutize. destruct (starts (u "/") url); [|trivial].
  intros H.
  destruct (includes (u "https://www.glassdoor.ca" ++ url) (u "Reviews/index.htm"))
    eqn:E; [|reflexivity].
  exfalso. apply includes_occurs in E as [p Hp].
  destruct (Nat.lt_ge_cases p 24) as [L|L].
  - exact (prefix_has_no_index url p L Hp).
  - apply occurs_at_after in Hp; [|exact L].
    exact (includes_false _ _ H _ Hp).
Qed.

(** The review link the loop settles on. *)
Lemma validReviewUrl_some (hrefs : list (option jsstring)) (h : jsstring) :
  validReviewUrl hrefs = Some h ->
  includes h (u "Reviews-E") = true
  /\ includes h (u "Reviews/index.htm") = false
  /\ exists before after,
      hrefs = before ++ Some h :: after
      /\ forall x, In x before ->
                   match x with
                   | Some y => y = [] \/ includes y (u "Reviews/index.htm") = true
                               \/ includes y (u "Reviews-E") = false
                   | None => True
                   end.
Proof.
  unfold validReviewUrl.
  destruct (find _ hrefs) as [x|] eqn:F; [|discriminate]. intros ->.
  apply find_first in F as (b & a & E & Hx & Hb).
  apply andb_true_iff in Hx as [_ Hx]. apply andb_true_iff in Hx as [H1 H2].
  split; [exact H2|]. split; [now apply negb_true_iff|].
  exists b, a. split; [exact E|]. intros [y|] Hy; [|exact I].
  specialize (Hb _ Hy). cbn beta in Hb.
  destruct y as [|c y]; [now left|]. right. cbn [truthy andb] in Hb.
  apply andb_false_iff in Hb as [Hb|Hb].
  - left. now apply negb_false_iff.
  - now right.
Qed.


End LocatorFacts.

(** X13. The locator never navigates to a site-relative address: no
    address it goes to begins with a slash.  It goes to at most two
    addresses, and the script scrapes pages only after going to one. *)
Theorem locate_navigations (companyName : jsstring) (v : SearchView) :
  Forall (fun url => starts (u "/") url = false)
         (navigations (locate companyName v))
  /\ length (navigations (locate companyName v)) <= 2
  /\ (proceeds (locate companyName v) = true ->
      navigations (locate companyName v) <> []).
Proof.
  unfold locate. destruct v as [| |s]; cbn [navigations proceeds length];
    try (split; [constructor|split; [lia|discriminate]]).
  destruct (pickTarget companyName (links s)) as [url|];
    [|cbn; split; [constructor|split; [lia|discriminate]]].
  destruct (truthy (Some url));
    [|cbn; split; [constructor|split; [lia|discriminate]]].
  pose proof (absolutize_not_relative url) as A.
  destruct (targetLoads s);
    [|cbn; split; [now repeat constructor|split; [lia|discriminate]]].
  destruct (needsReviewsTab (landedUrl s));
    [|cbn; split; [now repeat constructor|split; [lia|discriminate]]].
  destruct (reviewLinks s) as [hrefs|];
    [|cbn; split; [now repeat constructor|split; [lia|discriminate]]].
  destruct (validReviewUrl hrefs) as [h|];
    [|cbn; split; [now repeat constructor|split; [lia|discriminate]]].
  destruct (truthy (Some h));
    cbn; (split; [|split; [lia|discriminate]]).
  - constructor; [exact A|]. constructor; [apply absolutize_not_relative|constructor].
  - now repeat constructor.
Qed.

Lemma locate_navigations_witness :
  Forall (fun url => starts (u "/") url = false)
         (navigations (locate (u "Enbridge") (InputShown enbridge_search)))
  /\ length (navigations (locate (u "Enbridge") (InputShown enbridge_search))) <= 2
  /\ navigations (locate (u "Enbridge") (InputShown enbridge_search)) <> [].
Proof.
  destruct (locate_navigations (u "Enbridge") (InputShown enbridge_search))
    as (H1 & H2 & H3).
  split; [exact H1|]. split; [exact H2|]. apply H3. vm_compute; reflexivity.
Defined.

(** X14. When the locator goes to a second address, the company page had
    not landed on a reviews page, and the address is that of the first
    review link whose [href] is set, names a company's reviews
    ("Reviews-E") and is not the global index: the address holds
    "Reviews-E" and does not hold "Reviews/index.htm". *)
Theorem locate_reviews_tab (companyName : jsstring) (v : SearchView)
        (target second : jsstring) :
  navigations (locate companyName v) = [target; second] ->
  exists s hrefs h before after,
    v = InputShown s
    /\ needsReviewsTab (landedUrl s) = true
    /\ reviewLinks s = Returned hrefs
    /\ hrefs = before ++ Some h :: after
    /\ (forall x, In x before ->
                  match x with
                  | Some y => y = [] \/ includes y (u "Reviews/index.htm") = true
                              \/ includes y (u "Reviews-E") = false
                  | None => True
                  end)
    /\ second = absolutize h
    /\ includes second (u "Reviews-E") = true
    /\ includes second (u "Reviews/index.htm") = false.
Proof.
  unfold locate. destruct v as [| |s]; cbn [navigations]; try discriminate.
  destruct (pickTarget companyName (links s)) as [url|]; [|discriminate].
  destruct (truthy (Some url)); [|discriminate].
  destruct (targetLoads s); [|discriminate].
  destruct (needsReviewsTab (landedUrl s)) eqn:T; [|discriminate].
  destruct (reviewLinks s) as [hrefs|] eqn:R; [|discriminate].
  destruct (validReviewUrl hrefs) as [h|] eqn:V; [|discriminate].
  destruct (truthy (Some h)); [|discriminate].
  cbn [navigations]. intros E; injection E as <- <-.
  apply validReviewUrl_some in V as (H1 & H2 & b & a & E & Hb).
  exists s, hrefs, h, b, a. repeat split; try assumption; try reflexivity.
  - now apply absolutize_includes.
  - now apply absolutize_excludes_index.
Qed.

Lemma locate_reviews_tab_witness :
  exists s hrefs h before after,
    InputShown enbridge_search = InputShown s
    /\ needsReviewsTab (landedUrl s) = true
    /\ reviewLinks s = Returned hrefs
    /\ hrefs = before ++ Some h :: after
    /\ (forall x, In x before ->
                  match x with
                  | Some y => y = [] \/ includes y (u "Reviews/index.htm") = true
                              \/ includes y (u "Reviews-E") = false
                  | None => True
                  end)
    /\ u "https://www.glassdoor.ca/Reviews/Enbridge-Reviews-E3559.htm"
       = absolutize h
    /\ includes (u "https://www.glassdoor.ca/Reviews/Enbridge-Reviews-E3559.htm")
                (u "Reviews-E") = true
    /\ includes (u "https://www.glassdoor.ca/Reviews/Enbridge-Reviews-E3559.htm")
                (u "Reviews/index.htm") = false.
Proof.
  apply (locate_reviews_tab (u "Enbridge") (InputShown enbridge_search)
           (u "https://www.glassdoor.ca/Overview/Working-at-Enbridge-EI_IE3559.htm")).
  vm_compute; reflexivity.
Defined.




(** ** The run *)

Section RunFacts.

Variable env : nat -> CompanyView.

Lemma visit_of_tail (c : jsstring) (cs : list jsstring) (k : nat) (v : Visit) :
  visit_of cs env (S k) v -> visit_of (c :: cs) env k v.
Proof.
  intros (H1 & H2 & H3 & H4). split; [lia|]. split; [|now split].
  replace (visitPosition v - k) with (S (visitPosition v - S k)) by lia.
  exact H2.
Qed.

Lemma increasing_from_weaken (k k' : nat) (l : list nat) :
  k <= k' -> increasing_from k' l -> increasing_from k l.
Proof. destruct l as [|x l]; [trivial|]. cbn. intros H [H1 H2]. split; [lia|exact H2]. Qed.

Lemma scrapeCompanies_store (companies : list jsstring) :
  forall k st,
    sound st ->
    let res := scrapeCompanies companies env k st in
    sound (finalStore res)
    /\ contents (finalStore res) = contents st ++ run_harvest env (visits res)
    /\ Forall (visit_of companies env k) (visits res)
    /\ increasing_from k (map visitPosition (visits res))
    /\ (finished res = true ->
        forall j c, nth_error companies j = Some c ->
                    proceeds (locate c (searchView (env (k + j)))) = true ->
                    exists v, In v (visits res) /\ visitPosition v = k + j)
    /\ (finished res = false ->
        exists vs v, visits res = vs ++ [v]
                     /\ pageViews (env (visitPosition v)) (visitPages v - 1)
                        = PageLost).
Proof.
  induction companies as [|c cs IH]; intros k st Hs; cbn [scrapeCompanies].
  - cbv zeta. cbn [finalStore visits finished]. split; [exact Hs|].
    split; [cbn; now rewrite app_nil_r|]. split; [constructor|].
    split; [exact I|]. split; [|discriminate].
    intros _ [|j] c' E; discriminate.
  - destruct (proceeds (locate c (searchView (env k)))) eqn:P.
    + pose proof (pageLoop_store c (pageViews (env k)) MAX_PAGES_PER_COMPANY 0 st Hs)
        as (_ & Hp & Hsr & Hc & Hrej & _).
      pose proof (pageLoop_run c (pageViews (env k)) MAX_PAGES_PER_COMPANY 0 st)
        as ([_ Hb] & _).
      fold (scrapePages c (pageViews (env k)) st) in *.
      rewrite Nat.sub_0_r in Hc. cbn [Nat.add] in Hb.
      set (r := scrapePages c (pageViews (env k)) st) in *.
      assert (Hv : visit_of (c :: cs) env k (mkVisit k c (pages r))).
      { split; [cbn; lia|]. cbn [visitPosition visitCompany visitPages].
        rewrite Nat.sub_diag. split; [reflexivity|]. split; [exact P|].
        split; [apply Hp; unfold MAX_PAGES_PER_COMPANY; lia|exact Hb]. }
      destruct (ending r) eqn:En.
      3: { cbn [finalStore visits finished]. split; [exact Hsr|]. split.
           { rewrite Hc. unfold run_harvest.
             cbn [flat_map visitCompany visitPosition visitPages].
             now rewrite app_nil_r. }
           split; [constructor; [exact Hv|constructor]|].
           split; [cbn; split; [lia|exact I]|]. split; [discriminate|].
           intros _. exists [], (mkVisit k c (pages r)). split; [reflexivity|].
           cbn [visitPosition visitPages]. now apply Hrej. }
      all: destruct (IH (S k) (store r) Hsr) as (I1 & I2 & I3 & I4 & I5 & I6).
      all: cbv zeta; cbn [finalStore visits finished].
      all: split; [exact I1|].
      all: split;
        [rewrite I2, Hc; unfold run_harvest;
         cbn [flat_map visitCompany visitPosition visitPages];
         now rewrite app_assoc|].
      all: split;
        [constructor; [exact Hv|]; revert I3; apply Forall_impl;
         intros v; apply visit_of_tail|].
      all: split; [cbn [map visitPosition increasing_from]; split; [lia|exact I4]|].
      all: split;
        [|intros F; destruct (I6 F) as (vs & v & E & L);
          exists (mkVisit k c (pages r) :: vs), v; rewrite E; now split].
      all: intros F [|j] c' E L;
        [injection E as <-; exists (mkVisit k c (pages r));
         split; [now left|cbn; lia]|].
      all: destruct (I5 F j c' E) as (v & Hin & Hpos);
        [now replace (S k + j) with (k + S j) by lia|].
      all: exists v; split; [now right|lia].
    + destruct (IH (S k) st Hs) as (I1 & I2 & I3 & I4 & I5 & I6).
      cbv zeta in *. split; [exact I1|]. split; [exact I2|]. split.
      { revert I3. apply Forall_impl. intros v. apply visit_of_tail. }
      split; [apply increasing_from_weaken with (S k); [lia|exact I4]|].
      split.
      { intros F [|j] c' E L.
        - injection E as <-. rewrite Nat.add_0_r in L. congruence.
        - destruct (I5 F j c' E) as (v & Hin & Hpos).
          + now replace (S k + j) with (k + S j) by lia.
          + exists v. split; [exact Hin|lia]. }
      { exact I6. }
Qed.

Lemma visits_bounded (companies : list jsstring) :
  forall k st, length (visits (scrapeCompanies companies env k st))
               <= length companies.
Proof.
  induction companies as [|c cs IH]; intros k st; cbn [scrapeCompanies];
    [cbn; lia|].
  destruct (proceeds _).
  - cbv zeta. destruct (ending _); cbn [visits length];
      try (specialize (IH (S k) (store (scrapePages c (pageViews (env k)) st))));
      lia.
  - specialize (IH (S k) st). cbn [length]. lia.
Qed.

End RunFacts.

(** X16. A run whose start-up reset succeeds leaves a store that holds
    exactly the records of this run, whatever the old data file held: the
    records of the companies visited, company after company in the order
    of the target list and page after page.  Every company visited was
    located and had between 1 and 30 iterations; a company that is not
    located is passed over and does not stop the run; and the run stops
    short of the end of the list only when a page evaluation rejects. *)
Theorem main_store (f : file) (env : nat -> CompanyView) :
  let res := main f false env in
  sound (finalStore res)
  /\ contents (finalStore res) = run_harvest env (visits res)
  /\ Forall (visit_of TARGET_COMPANIES env 0) (visits res)
  /\ increasing_from 0 (map visitPosition (visits res))
  /\ length (visits res) <= 20
  /\ (finished res = true ->
      forall j c, nth_error TARGET_COMPANIES j = Some c ->
                  proceeds (locate c (searchView (env j))) = true ->
                  exists v, In v (visits res) /\ visitPosition v = j)
  /\ (finished res = false ->
      exists vs v, visits res = vs ++ [v]
                   /\ pageViews (env (visitPosition v)) (visitPages v - 1)
                      = PageLost).
Proof.
  unfold main.
  assert (R : resetStore f false = None) by (destruct f; reflexivity).
  rewrite R.
  destruct (scrapeCompanies_store env TARGET_COMPANIES 0 None (or_introl eq_refl))
    as (H1 & H2 & H3 & H4 & H5 & H6).
  cbv zeta. cbv zeta in H2.
  change (contents None) with (@nil json) in H2. rewrite app_nil_l in H2.
  pose proof (visits_bounded env TARGET_COMPANIES 0 None) as B.
  change (length TARGET_COMPANIES) with 20 in B.
  split; [exact H1|]. split; [exact H2|]. split; [exact H3|].
  split; [exact H4|]. split; [exact B|].
  split; [exact H5|exact H6].
Qed.

Lemma main_store_witness :
  let res := main (Some truncated_store) false steady_env in
  finished res = true
  /\ contents (finalStore res) = run_harvest steady_env (visits res)
  /\ length (visits res) <= 20
  /\ exists v, In v (visits res) /\ visitPosition v = 19.
Proof.
  pose proof (main_store (Some truncated_store) steady_env) as H.
  cbv zeta in *. destruct H as (_ & H2 & _ & _ & H5 & H6 & _).
  assert (F : finished (main (Some truncated_store) false steady_env) = true)
    by (vm_compute; reflexivity).
  split; [exact F|]. split; [exact H2|]. split; [exact H5|].
  apply (H6 F 19 (u "NuVista Energy")); vm_compute; reflexivity.
Defined.
